(** * read_docx: plain-text extraction from a WordprocessingML package

    A shallow embedding of [src/read_docx.py] and the properties of its
    single operation [read_docx(file_path, output_path)].

    Conventions of the embedding.
    - A Python [str] is the list of its Unicode code points ([list N]); a
      Python [bytes] object is a [list byte].
    - The file system is a finite map from file identities to contents; a
      path leads to a file identity, and several paths can lead to one.
    - What the program delegates to the Python standard library and to the
      operating system ([zipfile.ZipFile], [ET.fromstring], [print],
      [str(e)], [os.linesep], path resolution) is a field of the class
      [Platform], over which the program and its properties are stated. *)

From Stdlib Require Import NArith Strings.Byte Ascii String.
From stdpp Require Import gmap strings list sorting.

#[local] Set Warnings "-register-all".
Local Open Scope N_scope.
Local Open Scope list_scope.

(** ** Python strings and bytes *)

Abbreviation str := (list N) (only parsing).
Abbreviation bytes := (list byte) (only parsing).

#[global] Instance byte_eq_decision : EqDecision byte := Byte.byte_eq_dec.

(** A string literal of the source, as a [str]. *)
Definition py (s : string) : str :=
  map N_of_ascii (list_ascii_of_string s).

(** The character ['\n']. *)
Definition LF : N := 10.

(** [sep.join(items)]. *)
Fixpoint join (sep : str) (items : list str) : str :=
  match items with
  | [] => []
  | [x] => x
  | x :: rest => x ++ sep ++ join sep rest
  end.

(** ** The element tree of [xml.etree.ElementTree]

    An [Element] has a tag, an optional text (the character data before its
    first child) and an ordered list of children. The attributes and the
    tail of an element are never read by the program. *)

Inductive Element : Type :=
  mkElement { tag : str; text : option str; children : list Element }.

(** The position of an element in a tree: the child indices on the way
    down from the root. Two occurrences of equal subtrees are different
    objects in Python; the position tells them apart. *)
Abbreviation position := (list nat) (only parsing).

(** [subtree e pos] is the element reached from [e] along [pos]. *)
Fixpoint subtree (e : Element) (pos : position) : option Element :=
  match pos with
  | [] => Some e
  | i :: pos' =>
      match children e !! i with
      | Some c => subtree c pos'
      | None => None
      end
  end.

(** [Element.iter(tag)]: the element itself when its tag matches (every
    element when [tag] is [None]), then the elements of each child's
    [iter], in order. Every element is yielded with its position. *)
Definition tag_matches (tag0 : option str) (e : Element) : bool :=
  match tag0 with
  | None => true
  | Some t => bool_decide (tag e = t)
  end.

Fixpoint iter_at (tag0 : option str) (pos : position) (e : Element)
  {struct e} : list (position * Element) :=
  (if tag_matches tag0 e then [(pos, e)] else []) ++
  (fix iter_children (i : nat) (cs : list Element) {struct cs} :=
     match cs with
     | [] => []
     | c :: cs' => iter_at tag0 (pos ++ [i]) c ++ iter_children (S i) cs'
     end) 0%nat (children e).

Definition iter (tag0 : option str) (e : Element) : list Element :=
  (iter_at tag0 [] e).*2.

(** The namespace map of the program and the tags it searches for. A
    prefixed name [w:local] of a path is looked up as [{uri}local]. *)
Definition namespaces : list (string * string) :=
  [("w", "http://schemas.openxmlformats.org/wordprocessingml/2006/main")]%string.

Definition qname (prefix local : string) : str :=
  match list_find (fun kv => bool_decide (kv.1 = prefix)) namespaces with
  | Some (_, (_, uri)) => py ("{" ++ uri ++ "}" ++ local)
  | None => py (prefix ++ ":" ++ local)
  end.

Definition W_p : str := qname "w" "p".
Definition W_r : str := qname "w" "r".
Definition W_t : str := qname "w" "t".

(** [elem.findall('.//tag', namespaces)]: ElementPath selects
    [for e in elem.iter(tag): if e is not elem: yield e]. *)
Definition findall_at (tag0 : str) (pos : position) (e : Element)
  : list (position * Element) :=
  filter (fun x => x.1 <> pos) (iter_at (Some tag0) pos e).

Definition findall (tag0 : str) (e : Element) : list Element :=
  (findall_at tag0 [] e).*2.

(** ** The traversal of [read_docx] (lines 18 to 30)

    Each [for] loop is a left fold over the list it iterates, threading the
    list it appends to. *)

(** [if t.text: p_text.append(t.text)] *)
Definition append_text (p_text : list str) (t : Element) : list str :=
  match text t with
  | Some (c :: s) => p_text ++ [c :: s]
  | Some [] => p_text
  | None => p_text
  end.

(** [for t in r.findall('.//w:t', namespaces): ...] *)
Definition run_loop (p_text : list str) (r : Element) : list str :=
  fold_left append_text (findall W_t r) p_text.

(** [p_text = []; for r in p.findall('.//w:r', namespaces): ...] *)
Definition paragraph_fragments (p : Element) : list str :=
  fold_left run_loop (findall W_r p) [].

(** [text.append(''.join(p_text))] *)
Definition paragraph_loop (text0 : list str) (p : Element) : list str :=
  text0 ++ [join [] (paragraph_fragments p)].

(** [text = []; for p in tree.findall('.//w:p', namespaces): ...] *)
Definition extract (tree : Element) : list str :=
  fold_left paragraph_loop (findall W_p tree) [].

(** [full_text = '\n'.join(text)] *)
Definition full_text (tree : Element) : str :=
  join [LF] (extract tree).

(** ** Text-mode output: newline translation and UTF-8

    [open(path, 'w', encoding='utf-8')] gives a text stream whose [write]
    replaces every ['\n'] by the platform's line separator and encodes the
    result with the strict UTF-8 codec. *)

Definition byte_of_N (n : N) : byte := default x00 (Byte.of_N n).

(** One code point; the surrogates U+D800 to U+DFFF cannot be encoded. *)
Definition encode_char (c : N) : option bytes :=
  if c <? 0x80 then
    Some [byte_of_N c]
  else if c <? 0x800 then
    Some [byte_of_N (N.lor 0xC0 (N.shiftr c 6));
          byte_of_N (N.lor 0x80 (N.land c 0x3F))]
  else if (0xD800 <=? c) && (c <=? 0xDFFF) then
    None
  else if c <? 0x10000 then
    Some [byte_of_N (N.lor 0xE0 (N.shiftr c 12));
          byte_of_N (N.lor 0x80 (N.land (N.shiftr c 6) 0x3F));
          byte_of_N (N.lor 0x80 (N.land c 0x3F))]
  else if c <? 0x110000 then
    Some [byte_of_N (N.lor 0xF0 (N.shiftr c 18));
          byte_of_N (N.lor 0x80 (N.land (N.shiftr c 12) 0x3F));
          byte_of_N (N.lor 0x80 (N.land (N.shiftr c 6) 0x3F));
          byte_of_N (N.lor 0x80 (N.land c 0x3F))]
  else None.

Fixpoint encode_utf8 (s : str) : option bytes :=
  match s with
  | [] => Some []
  | c :: s' =>
      match encode_char c, encode_utf8 s' with
      | Some b, Some bs => Some (b ++ bs)
      | _, _ => None
      end
  end.

(** [s.replace('\n', linesep)] *)
Definition translate_newlines (linesep : str) (s : str) : str :=
  flat_map (fun c => if c =? LF then linesep else [c]) s.

(** ** Exceptions

    The classes that matter to [except Exception], with their direct base
    class, and the exceptions that can be raised during a call: those of
    the program's own steps, and whatever the library or [print] raises. *)

Inductive pyclass : Type :=
  | BaseException | Exception
  | KeyboardInterrupt | SystemExit | GeneratorExit
  | OSError | FileNotFoundError
  | LookupError | KeyError
  | ValueError | UnicodeError | UnicodeEncodeError
  | SyntaxError | ParseError
  | BadZipFile.

#[global] Instance pyclass_eq_dec : EqDecision pyclass.
Proof. solve_decision. Defined.

Definition base_class (c : pyclass) : option pyclass :=
  match c with
  | BaseException => None
  | Exception | KeyboardInterrupt | SystemExit | GeneratorExit =>
      Some BaseException
  | OSError | LookupError | ValueError | SyntaxError | BadZipFile =>
      Some Exception
  | FileNotFoundError => Some OSError
  | KeyError => Some LookupError
  | UnicodeError => Some ValueError
  | UnicodeEncodeError => Some UnicodeError
  | ParseError => Some SyntaxError
  end.

Fixpoint ancestors (depth : nat) (c : pyclass) : list pyclass :=
  c :: match depth, base_class c with
       | S d, Some b => ancestors d b
       | _, _ => []
       end.

Definition issubclass (c d : pyclass) : bool :=
  bool_decide (d ∈ ancestors 5 c).

Inductive exn : Type :=
  | NoSuchFile (filename : str)   (* ZipFile(file_path): the file is missing *)
  | NoSuchItem (name : str)       (* z.read(name): no such member *)
  | CannotOpen (filename : str)   (* open(output_path, 'w') is refused *)
  | CannotEncode (s : str)        (* f.write(full_text): not encodable *)
  | CannotWrite (filename : str)  (* the bytes do not fit on the device *)
  | Raised (cls : pyclass) (detail : str).
                                  (* raised by the library or by print *)

Definition class_of (e : exn) : pyclass :=
  match e with
  | NoSuchFile _ => FileNotFoundError
  | NoSuchItem _ => KeyError
  | CannotOpen _ => OSError
  | CannotEncode _ => UnicodeEncodeError
  | CannotWrite _ => OSError
  | Raised cls _ => cls
  end.

Definition isinstance (e : exn) (c : pyclass) : bool :=
  issubclass (class_of e) c.

(** ** The world and the monad of effects

    A file is known by its identity, not by a path: several paths can lead
    to one file (a [./] prefix, a symbolic link, a hard link). *)

Record World : Type := mkWorld {
  files : gmap N bytes;         (* the content of every existing file *)
  unwritable : gset str;        (* paths that open(_, 'w') refuses *)
  capacity : gmap N nat;        (* files that take only so many bytes *)
  stdout : list str             (* the lines printed so far *)
}.

Definition set_files (fs : gmap N bytes) (w : World) : World :=
  mkWorld fs (unwritable w) (capacity w) (stdout w).

Definition add_line (line : str) (w : World) : World :=
  mkWorld (files w) (unwritable w) (capacity w) (stdout w ++ [line]).

Inductive outcome (A : Type) : Type :=
  | Return (a : A)
  | Raise (e : exn).
Arguments Return {A} a.
Arguments Raise {A} e.

Definition io (A : Type) : Type := World -> outcome A * World.

Definition ret {A} (a : A) : io A := fun w => (Return a, w).
Definition raise {A} (e : exn) : io A := fun w => (Raise e, w).
Definition bind {A B} (m : io A) (k : A -> io B) : io B :=
  fun w =>
    match m w with
    | (Return a, w') => k a w'
    | (Raise e, w') => (Raise e, w')
    end.

Declare Scope io_scope.
Delimit Scope io_scope with io.
Notation "x <- m ;; k" := (bind m (fun x => k))
  (at level 100, m at next level, right associativity) : io_scope.
Notation "m ;; k" := (bind m (fun _ => k))
  (at level 100, right associativity) : io_scope.

(** [try: body  except cls as e: handler(e)] *)
Definition try_except {A} (body : io A) (cls : pyclass)
  (handler : exn -> io A) : io A :=
  fun w =>
    match body w with
    | (Raise e, w') =>
        if isinstance e cls then handler e w' else (Raise e, w')
    | r => r
    end.

(** ** The platform

    What the program takes from the Python standard library and from the
    operating system. A file that exists can be read. *)

Class Platform : Type := {
  (** The file a path leads to, links followed: two paths lead to the same
      file exactly when they have the same identity. For a path that names
      no file yet it is the identity of the file that creating it makes. *)
  node_of : str -> N;
  (** [zipfile]: the member table (name to content) of an archive given by
      the bytes of its file, or the exception the library raises. *)
  zip_members : bytes -> exn + gmap str bytes;
  (** [ET.fromstring]: the root element of a document, or the exception
      the parser raises. *)
  fromstring : bytes -> exn + Element;
  (** The exception [print(line)] raises, if standard output cannot take
      the line (its encoding has no form for a character, it is closed). *)
  print_error : str -> option exn;
  (** [str(e)] *)
  exn_str : exn -> str;
  (** [os.linesep] *)
  linesep : str
}.

(** ** The program *)

(** [print(line)] *)
Definition print `{Platform} (line : str) : io unit :=
  fun w =>
    match print_error line with
    | Some e => (Raise e, w)
    | None => (Return tt, add_line line w)
    end.

(** [zipfile.ZipFile(file_path)] *)
Definition ZipFile `{Platform} (file_path : str) : io (gmap str bytes) :=
  fun w =>
    match files w !! node_of file_path with
    | None => (Raise (NoSuchFile file_path), w)
    | Some data =>
        match zip_members data with
        | inl e => (Raise e, w)
        | inr z => (Return z, w)
        end
    end.

(** [z.read(name)] *)
Definition ZipFile_read (z : gmap str bytes) (name : str) : io bytes :=
  match z !! name with
  | Some content => ret content
  | None => raise (NoSuchItem name)
  end.

(** [ET.fromstring(xml_content)] *)
Definition ET_fromstring `{Platform} (xml_content : bytes) : io Element :=
  match fromstring xml_content with
  | inr tree => ret tree
  | inl e => raise e
  end.

(** [open(path, 'w', ...)]: creates the file or truncates it. *)
Definition open_w `{Platform} (path : str) : io unit :=
  fun w =>
    if bool_decide (path ∈ unwritable w) then (Raise (CannotOpen path), w)
    else (Return tt, set_files (<[node_of path := []]> (files w)) w).

(** The encoded bytes reach the open file when the stream is flushed, at
    the latest when the [with] block closes it. A file that takes only
    [limit] bytes keeps that many and the flush raises [OSError]. *)
Definition write_bytes `{Platform} (path : str) (data : bytes) : io unit :=
  fun w =>
    let n := node_of path in
    match capacity w !! n with
    | Some limit =>
        if (limit <? length data)%nat then
          (Raise (CannotWrite path),
           set_files (alter (fun old => old ++ take limit data) n (files w)) w)
        else
          (Return tt, set_files (alter (fun old => old ++ data) n (files w)) w)
    | None =>
        (Return tt, set_files (alter (fun old => old ++ data) n (files w)) w)
    end.

(** [f.write(s)] on the text stream opened on [path], and its close. *)
Definition f_write `{Platform} (path : str) (s : str) : io unit :=
  match encode_utf8 (translate_newlines linesep s) with
  | Some data => write_bytes path data
  | None => raise (CannotEncode s)
  end.

(** The body of the [try] statement (lines 8 to 36). *)
Definition read_docx_try `{Platform} (file_path output_path : str) : io bool :=
  (z <- ZipFile file_path ;;
   xml_content <- ZipFile_read z (py "word/document.xml") ;;
   tree <- ET_fromstring xml_content ;;
   let full_text := join [LF] (extract tree) in
   open_w output_path ;;
   f_write output_path full_text ;;
   print (py "Successfully wrote content to " ++ output_path) ;;
   ret true)%io.

(** The handler (lines 37 to 39). *)
Definition read_docx_except `{Platform} (e : exn) : io bool :=
  (print (py "Error reading .docx file: " ++ exn_str e) ;;
   ret false)%io.

Definition read_docx `{Platform} (file_path output_path : str) : io bool :=
  try_except (read_docx_try file_path output_path) Exception read_docx_except.

(** ** Sample data *)

Definition W (local : string) (content : option str) (cs : list Element)
  : Element :=
  mkElement (qname "w" local) content cs.

Definition T (s : string) : Element := W "t" (Some (py s)) [].

(** Three paragraphs: [Hello], an empty one, and [World] in two runs. *)
Definition hello_tree : Element :=
  W "document" None
    [W "body" None
       [W "p" None [W "r" None [T "Hello"]];
        W "p" None [];
        W "p" None [W "r" None [T "Wor"]; W "r" None [T "ld"]]]].

(** A paragraph nested in another one (as in a text box). *)
Definition inner_run : Element := W "r" None [T "B"].
Definition inner_paragraph : Element := W "p" None [inner_run].
Definition outer_paragraph : Element :=
  W "p" None [W "r" None [T "A"]; inner_paragraph].
Definition nested_tree : Element :=
  W "document" None [W "body" None [outer_paragraph]].

(** One paragraph whose text holds a line feed. *)
Definition multiline_tree : Element :=
  W "document" None
    [W "body" None
       [W "p" None [W "r" None [W "t" (Some (py "a" ++ [LF] ++ py "b")) []]]]].

(** No paragraph at all. *)
Definition blank_tree : Element :=
  W "document" None [W "body" None []].

Definition ascii_bytes (s : string) : bytes := list_byte_of_string s.

(** A platform that knows a few files. Paths: [./hello.docx] is another
    name of [hello.docx], every path not listed leads to file 0. Archives:
    the marker [PK] followed by the content of the only member
    [word/document.xml] (the marker alone is an archive without members).
    Documents: the sample trees. *)
Definition sample_paths : list (string * N) :=
  [("hello.docx", 1); ("./hello.docx", 1); ("blank.docx", 2);
   ("empty.zip", 3); ("notes.txt", 4); ("out.txt", 5);
   ("docx_content.txt", 6); ("/dev/full", 7); ("/proc/version", 8)]%string.

Definition sample_node_of (path : str) : N :=
  match list_find (fun kv => bool_decide (py kv.1 = path)) sample_paths with
  | Some (_, (_, n)) => n
  | None => 0
  end.

Definition sample_zip_members (data : bytes) : exn + gmap str bytes :=
  match data with
  | [x50; x4b] => inr ∅
  | x50 :: x4b :: content => inr {[ py "word/document.xml" := content ]}
  | _ => inl (Raised BadZipFile (py "File is not a zip file"))
  end.

Definition sample_fromstring (data : bytes) : exn + Element :=
  if bool_decide (data = ascii_bytes "hello") then inr hello_tree
  else if bool_decide (data = ascii_bytes "nested") then inr nested_tree
  else if bool_decide (data = ascii_bytes "multiline") then inr multiline_tree
  else if bool_decide (data = ascii_bytes "blank") then inr blank_tree
  else inl (Raised ParseError (py "syntax error")).

Definition sample_exn_str (e : exn) : str :=
  match e with
  | NoSuchFile f => py "No such file or directory: " ++ f
  | NoSuchItem n => py "There is no item named " ++ n ++ py " in the archive"
  | CannotOpen f => py "Permission denied: " ++ f
  | CannotEncode _ => py "surrogates not allowed"
  | CannotWrite _ => py "No space left on device"
  | Raised _ detail => detail
  end.

(** A standard output that takes every line, and one that takes ASCII
    only. *)
Definition takes_every_line (line : str) : option exn := None.

Definition takes_ascii_only (line : str) : option exn :=
  if forallb (fun c => c <? 128) line then None
  else Some (Raised UnicodeEncodeError
               (py "'ascii' codec can't encode character")).

Definition sample_posix : Platform :=
  {| node_of := sample_node_of;
     zip_members := sample_zip_members;
     fromstring := sample_fromstring;
     print_error := takes_every_line;
     exn_str := sample_exn_str;
     linesep := [LF] |}.

Definition sample_windows : Platform :=
  {| node_of := sample_node_of;
     zip_members := sample_zip_members;
     fromstring := sample_fromstring;
     print_error := takes_every_line;
     exn_str := sample_exn_str;
     linesep := [13; LF] |}.

Definition sample_ascii_stdout : Platform :=
  {| node_of := sample_node_of;
     zip_members := sample_zip_members;
     fromstring := sample_fromstring;
     print_error := takes_ascii_only;
     exn_str := sample_exn_str;
     linesep := [LF] |}.

(** A platform on which the reading of an archive is interrupted from
    the keyboard. *)
Definition sample_interrupted : Platform :=
  {| node_of := sample_node_of;
     zip_members := fun _ => inl (Raised KeyboardInterrupt []);
     fromstring := sample_fromstring;
     print_error := takes_every_line;
     exn_str := sample_exn_str;
     linesep := [LF] |}.

(** [/dev/full] exists and takes no byte; [/proc/version] cannot be
    opened for writing. *)
Definition sample_world : World :=
  {| files := {[ 1 := ascii_bytes "PKhello";
                 2 := ascii_bytes "PKblank";
                 3 := ascii_bytes "PK";
                 4 := ascii_bytes "plain text";
                 7 := [] ]};
     unwritable := {[ py "/proc/version" ]};
     capacity := {[ 7 := 0%nat ]};
     stdout := [] |}.

(** A path with a character outside ASCII: [U+00E9] then [.docx]. *)
Definition accented_path : str := 0xE9 :: py ".docx".

(** ** Notions used to state the properties *)

(** The children's part of [iter_at], as a function of its own. *)
Fixpoint iter_forest (tag0 : option str) (pos : position) (i : nat)
  (cs : list Element) : list (position * Element) :=
  match cs with
  | [] => []
  | c :: cs' => iter_at tag0 (pos ++ [i]) c ++ iter_forest tag0 pos (S i) cs'
  end.

(** Document order on positions: an element comes before its descendants,
    and before its later siblings and their descendants. *)
Fixpoint before (p q : position) : bool :=
  match p, q with
  | [], [] => false
  | [], _ :: _ => true
  | _ :: _, [] => false
  | i :: p', j :: q' => (i <? j)%nat || ((i =? j)%nat && before p' q')
  end.

Definition in_document_order (a b : position * Element) : Prop :=
  before a.1 b.1 = true.

(** The number of elements with tag [t] in a tree, and strictly beneath
    its root. *)
Fixpoint count_tag (t : str) (e : Element) : nat :=
  ((if bool_decide (tag e = t) then 1 else 0) +
   sum_list (count_tag t <$> children e))%nat.

Definition count_beneath (t : str) (e : Element) : nat :=
  sum_list (count_tag t <$> children e).

(** The nearest element with tag [t] strictly above position [rest] of
    [e], the walk being at [here] with [last] the nearest one so far. *)
Fixpoint enclosing_at (t : str) (e : Element) (here rest : position)
  (last : option position) : option position :=
  match rest with
  | [] => last
  | i :: rest' =>
      let last' := if bool_decide (tag e = t) then Some here else last in
      match children e !! i with
      | Some c => enclosing_at t c (here ++ [i]) rest' last'
      | None => None
      end
  end.

(** The paragraph an element belongs to: its nearest [w:p] ancestor. *)
Definition paragraph_of (tree : Element) (pos : position) : option position :=
  enclosing_at W_p tree [] pos None.

(** The fragment a text element contributes, if any. *)
Definition fragment_of (t : Element) : list str :=
  match text t with
  | Some (c :: s) => [c :: s]
  | _ => []
  end.

(** The fragments of a run and the text of a paragraph, read as
    functions of the element. *)
Definition run_fragments (r : Element) : list str :=
  flat_map fragment_of (findall W_t r).

Definition paragraph_text (p : Element) : str :=
  join [] (paragraph_fragments p).

(** The number of occurrences of a character in a string. *)
Definition count_char (c : N) (s : str) : nat :=
  length (filter (fun x => x = c) s).

(** The lines of a text: the pieces between its line feeds. *)
Fixpoint split_lines (s : str) : list str :=
  match s with
  | [] => [[]]
  | c :: s' =>
      if c =? LF then [] :: split_lines s'
      else match split_lines s' with
           | [] => [[c]]
           | l :: ls => (c :: l) :: ls
           end
  end.

(** Strict scoping of runs: every run that the loop over a paragraph
    visits and that contributes text has that paragraph as its nearest
    enclosing paragraph. *)
Definition runs_scoped_to_paragraph (tree : Element) : Prop :=
  forall pp p rp r,
    (pp, p) ∈ findall_at W_p [] tree ->
    (rp, r) ∈ findall_at W_r pp p ->
    run_fragments r <> [] ->
    paragraph_of tree rp = Some pp.

(** No paragraph element lies beneath another one. *)
Definition no_nested_paragraph (tree : Element) : Prop :=
  forall pos p, (pos, p) ∈ iter_at (Some W_p) [] tree -> findall W_p p = [].

(** One line per paragraph: as many strings as paragraph elements, and
    one line feed less in the text that is written. *)
Definition one_line_per_paragraph (tree : Element) : Prop :=
  length (extract tree) = count_beneath W_p tree /\
  count_char LF (full_text tree) = (count_beneath W_p tree - 1)%nat.

(** The name of the document's member in the package. *)
Definition document_xml : str := py "word/document.xml".

(** The input file is a package whose document parses to [tree]. *)
Inductive loads `{Platform} (w : World) (file_path : str) (tree : Element)
  : Prop :=
  | loads_intro data z xml_content :
      files w !! node_of file_path = Some data ->
      zip_members data = inr z ->
      z !! document_xml = Some xml_content ->
      fromstring xml_content = inr tree ->
      loads w file_path tree.

(** Extraction fails, with the exception of the step that fails: the input
    path names no file, the file is not an archive, the archive has no
    document member, or the document is not well formed. *)
Inductive extraction_fails `{Platform} (w : World) (file_path : str)
  : exn -> Prop :=
  | fails_no_file :
      files w !! node_of file_path = None ->
      extraction_fails w file_path (NoSuchFile file_path)
  | fails_not_a_zip data e :
      files w !! node_of file_path = Some data ->
      zip_members data = inl e ->
      extraction_fails w file_path e
  | fails_no_document data z :
      files w !! node_of file_path = Some data ->
      zip_members data = inr z ->
      z !! document_xml = None ->
      extraction_fails w file_path (NoSuchItem document_xml)
  | fails_not_well_formed data z xml_content e :
      files w !! node_of file_path = Some data ->
      zip_members data = inr z ->
      z !! document_xml = Some xml_content ->
      fromstring xml_content = inl e ->
      extraction_fails w file_path e.

(** The two lines the program prints. *)
Definition error_line `{Platform} (e : exn) : str :=
  py "Error reading .docx file: " ++ exn_str e.

Definition success_line (output_path : str) : str :=
  py "Successfully wrote content to " ++ output_path.

(** The world with [data] as the content of the file [path] leads to. *)
Definition written `{Platform} (w : World) (path : str) (data : bytes)
  : World :=
  set_files (<[node_of path := data]> (files w)) w.

(** Whether the file [path] leads to takes all of [data], and the part of
    [data] it keeps. *)
Definition fits `{Platform} (w : World) (path : str) (data : bytes) : bool :=
  match capacity w !! node_of path with
  | Some limit => negb (limit <? length data)%nat
  | None => true
  end.

Definition kept `{Platform} (w : World) (path : str) (data : bytes) : bytes :=
  match capacity w !! node_of path with
  | Some limit => take limit data
  | None => data
  end.

(** The output is the paragraph strings joined by line feeds, in UTF-8. *)
Definition output_joined_by_LF `{Platform} : Prop :=
  forall w file_path output_path tree w',
    loads w file_path tree ->
    read_docx file_path output_path w = (Return true, w') ->
    files w' !! node_of output_path
    = encode_utf8 (join [LF] (extract tree)).

(** No exception leaves [read_docx]. *)
Definition always_returns_a_boolean `{Platform} : Prop :=
  forall w file_path output_path,
    exists b w', read_docx file_path output_path w = (Return b, w').


(** The input file keeps its content, and so does every file other than
    the destination. *)
Definition only_destination_modified `{Platform} : Prop :=
  forall w file_path output_path,
    let after := (read_docx file_path output_path w).2 in
    files after !! node_of file_path = files w !! node_of file_path /\
    forall n, n <> node_of output_path -> files after !! n = files w !! n.

(** A document without paragraphs gives [True] and an empty file. *)
Definition blank_document_succeeds `{Platform} : Prop :=
  forall w file_path output_path tree,
    loads w file_path tree ->
    count_beneath W_p tree = 0%nat ->
    exists w',
      read_docx file_path output_path w = (Return true, w') /\
      files w' !! node_of output_path = Some [].

(** ** The script (lines 41 to 47)

    [if len(sys.argv) > 1: ... else: print("Please provide a file path")];
    the value [read_docx] returns is dropped. *)

Definition default_output : str := py "docx_content.txt".

Definition usage_line : str := py "Please provide a file path".

Definition main `{Platform} (argv : list str) : io unit :=
  match argv with
  | _ :: file_path :: _ =>
      let output_path := default_output in
      (read_docx file_path output_path ;; ret tt)%io
  | _ => print usage_line
  end.

(** ** Further notions *)

(** A code point the UTF-8 codec accepts: a Unicode scalar value. *)
Definition scalar_value (c : N) : Prop :=
  c < 0x110000 /\ ~ (0xD800 <= c <= 0xDFFF).

(** [is_above a b]: position [a] is a proper ancestor of position [b]. *)
Fixpoint is_above (a b : position) : bool :=
  match a, b with
  | [], [] => false
  | [], _ :: _ => true
  | _ :: _, [] => false
  | i :: a', j :: b' => (i =? j)%nat && is_above a' b'
  end.

(** The text elements the two inner loops visit for the paragraph [p]
    standing at [pos], one entry per visit, each with its position. *)
Definition paragraph_texts_at (pos : position) (p : Element)
  : list (position * Element) :=
  flat_map (fun x => findall_at W_t x.1 x.2) (findall_at W_r pos p).

(** A hyperlink in a paragraph, and a run inside a run. *)
Definition link_paragraph : Element :=
  W "p" None
    [W "r" None [T "see "];
     W "hyperlink" None [W "r" None [W "rPr" None []; T "here"]]].

Definition doubled_paragraph : Element :=
  W "p" None [W "r" None [W "r" None [T "X"]]].

(** * Properties *)

(** ** Trees *)

(** Induction on an element with the hypothesis for all its children. *)
Lemma Element_forall_ind (P : Element -> Prop) :
  (forall t x cs, Forall P cs -> P (mkElement t x cs)) ->
  forall e, P e.
Proof.
  intros step. fix rec 1. intros [t x cs]. apply step.
  induction cs as [|c cs IHcs]; constructor.
  - apply rec.
  - exact IHcs.
Qed.

Lemma iter_at_unfold tag0 pos e :
  iter_at tag0 pos e =
  (if tag_matches tag0 e then [(pos, e)] else []) ++
  iter_forest tag0 pos 0 (children e).
Proof.
  destruct e as [t x cs]; simpl. f_equal.
  generalize 0%nat. induction cs as [|c cs IHcs]; intros i; simpl.
  - reflexivity.
  - now rewrite IHcs.
Qed.

Lemma subtree_app e pos rel c :
  subtree e pos = Some c -> subtree e (pos ++ rel) = subtree c rel.
Proof.
  revert e. induction pos as [|i pos IH]; intros e Hc; simpl in *.
  - now inversion Hc.
  - destruct (children e !! i); [now apply IH | discriminate].
Qed.

(** The elements of the children's part, given those of each child. *)
Lemma elem_of_iter_forest tag0 pos cs :
  Forall (fun c => forall pos' q x,
    (q, x) ∈ iter_at tag0 pos' c <->
    exists rel, q = pos' ++ rel /\ subtree c rel = Some x /\
                tag_matches tag0 x = true) cs ->
  forall i q x,
    (q, x) ∈ iter_forest tag0 pos i cs <->
    exists k c rel, cs !! k = Some c /\ q = pos ++ (i + k)%nat :: rel /\
                    subtree c rel = Some x /\ tag_matches tag0 x = true.
Proof.
  induction 1 as [|c cs Hc _ IH]; intros i q x; simpl.
  - split; [intros Hin; inversion Hin | intros (k & c & rel & Hk & _); done].
  - rewrite elem_of_app, Hc, IH. split.
    + intros [(rel & -> & Hsub & Hm) | (k & c' & rel & Hk & -> & Hsub & Hm)].
      * exists 0%nat, c, rel. rewrite Nat.add_0_r, <- app_assoc. done.
      * exists (S k), c', rel. rewrite Nat.add_succ_r. done.
    + intros ([|k] & c' & rel & Hk & -> & Hsub & Hm); simpl in Hk.
      * left. inversion Hk; subst c'. exists rel.
        rewrite Nat.add_0_r, <- app_assoc. done.
      * right. exists k, c', rel. rewrite Nat.add_succ_r. done.
Qed.

(** [iter] yields exactly the matching elements of the tree, each at its
    own position. *)
Lemma elem_of_iter_at tag0 e :
  forall pos q x,
    (q, x) ∈ iter_at tag0 pos e <->
    exists rel, q = pos ++ rel /\ subtree e rel = Some x /\
                tag_matches tag0 x = true.
Proof.
  induction e as [t tx cs IH] using Element_forall_ind. intros pos q x.
  rewrite iter_at_unfold, elem_of_app, (elem_of_iter_forest _ _ _ IH).
  simpl children. split.
  - intros [Hhead | (k & c & rel & Hk & -> & Hsub & Hm)].
    + destruct (tag_matches tag0 _) eqn:Hm; [|inversion Hhead].
      apply list_elem_of_singleton in Hhead. inversion Hhead; subst.
      exists []. rewrite app_nil_r. done.
    + exists (k :: rel). simpl. rewrite Hk. done.
  - intros ([|k rel] & -> & Hsub & Hm); simpl in Hsub.
    + left. inversion Hsub; subst x. rewrite Hm, app_nil_r.
      apply list_elem_of_singleton. done.
    + right. destruct (cs !! k) as [c|] eqn:Hk; [|discriminate].
      exists k, c, rel. done.
Qed.

Lemma filter_Forall {A} (P : A -> Prop) `{forall x, Decision (P x)} l :
  Forall P l -> filter P l = l.
Proof.
  induction 1 as [|x l Hx _ IH]; [done|].
  rewrite filter_cons_True by done. now rewrite IH.
Qed.

(** [findall] drops the element itself and keeps everything beneath. *)
Lemma findall_at_forest t pos e :
  findall_at t pos e = iter_forest (Some t) pos 0 (children e).
Proof.
  unfold findall_at. rewrite iter_at_unfold, filter_app.
  assert (Hhead : filter (fun x : position * Element => x.1 <> pos)
            (if tag_matches (Some t) e then [(pos, e)] else []) = []).
  { destruct (tag_matches _ _); [|done].
    rewrite filter_cons. simpl. destruct (decide _); done. }
  rewrite Hhead. simpl.
  apply filter_Forall, Forall_forall. intros [q x] Hin. simpl.
  assert (Hall : Forall (fun c => forall pos' q x,
    (q, x) ∈ iter_at (Some t) pos' c <->
    exists rel, q = pos' ++ rel /\ subtree c rel = Some x /\
                tag_matches (Some t) x = true) (children e)).
  { apply Forall_forall. intros c _ pos' q' x'. apply elem_of_iter_at. }
  apply (elem_of_iter_forest _ _ _ Hall) in Hin
    as (k & c & rel & _ & -> & _).
  intros Heq. apply (f_equal length) in Heq.
  rewrite length_app in Heq. simpl in Heq. lia.
Qed.

Lemma elem_of_findall_at t pos e q x :
  (q, x) ∈ findall_at t pos e <->
  exists rel, rel <> [] /\ q = pos ++ rel /\ subtree e rel = Some x /\
              tag x = t.
Proof.
  unfold findall_at. rewrite list_elem_of_filter, elem_of_iter_at. simpl.
  unfold tag_matches. split.
  - intros (Hne & rel & -> & Hsub & Hm). exists rel.
    apply bool_decide_eq_true in Hm. repeat split; try done.
    intros ->. rewrite app_nil_r in Hne. done.
  - intros (rel & Hne & -> & Hsub & Hm). split.
    + intros Heq. apply Hne. apply (f_equal length) in Heq.
      rewrite length_app in Heq. destruct rel; [done | simpl in Heq; lia].
    + exists rel. rewrite bool_decide_eq_true. done.
Qed.

Lemma elem_of_iter_forest_iff tag0 pos cs i q x :
  (q, x) ∈ iter_forest tag0 pos i cs <->
  exists k c rel, cs !! k = Some c /\ q = pos ++ (i + k)%nat :: rel /\
                  subtree c rel = Some x /\ tag_matches tag0 x = true.
Proof.
  apply elem_of_iter_forest, Forall_forall.
  intros c _ pos' q' x'. apply elem_of_iter_at.
Qed.

(** The elements [iter] yields do not depend on where the element is. *)
Lemma iter_at_elements tag0 e :
  forall pos, (iter_at tag0 pos e).*2 = iter tag0 e.
Proof.
  unfold iter.
  induction e as [t tx cs IH] using Element_forall_ind. intros pos.
  rewrite !iter_at_unfold, !fmap_app. f_equal.
  - destruct (tag_matches _ _); done.
  - simpl children. generalize 0%nat.
    induction IH as [|c cs Hc _ IHcs]; intros i; simpl; [done|].
    rewrite !fmap_app, IHcs. f_equal.
    rewrite Hc. symmetry. apply Hc.
Qed.

Lemma iter_forest_elements tag0 pos i cs :
  (iter_forest tag0 pos i cs).*2 = flat_map (iter tag0) cs.
Proof.
  revert i. induction cs as [|c cs IH]; intros i; simpl; [done|].
  now rewrite fmap_app, iter_at_elements, IH.
Qed.

(** [findall] seen from the element: the matching elements of each
    child's [iter], in order. *)
Lemma findall_children t e :
  findall t e = flat_map (iter (Some t)) (children e).
Proof.
  unfold findall. now rewrite findall_at_forest, iter_forest_elements.
Qed.

Lemma findall_at_elements t pos e :
  (findall_at t pos e).*2 = findall t e.
Proof.
  unfold findall. now rewrite !findall_at_forest, !iter_forest_elements.
Qed.

(** [iter] yields as many elements as the tree has with that tag. *)
Lemma length_iter_at t e :
  forall pos, length (iter_at (Some t) pos e) = count_tag t e.
Proof.
  induction e as [t0 tx cs IH] using Element_forall_ind. intros pos.
  rewrite iter_at_unfold, length_app. simpl. f_equal.
  - destruct (bool_decide _); done.
  - generalize 0%nat.
    induction IH as [|c cs Hc _ IHcs]; intros i; simpl; [done|].
    now rewrite length_app, Hc, IHcs.
Qed.

Lemma length_iter_forest t pos i cs :
  length (iter_forest (Some t) pos i cs) = sum_list (count_tag t <$> cs).
Proof.
  revert i. induction cs as [|c cs IH]; intros i; simpl; [done|].
  now rewrite length_app, length_iter_at, IH.
Qed.

Lemma length_findall t e : length (findall t e) = count_beneath t e.
Proof.
  unfold findall, count_beneath.
  now rewrite length_fmap, findall_at_forest, length_iter_forest.
Qed.

(** *** Document order *)

Lemma before_app pos a b : before (pos ++ a) (pos ++ b) = before a b.
Proof.
  induction pos as [|i pos IH]; simpl; [done|].
  now rewrite Nat.ltb_irrefl, Nat.eqb_refl.
Qed.

Lemma before_descendant pos rel : rel <> [] -> before pos (pos ++ rel) = true.
Proof.
  intros Hrel. rewrite <- (app_nil_r pos) at 1. rewrite before_app.
  destruct rel; done.
Qed.

Lemma before_later_sibling pos i j rel rel' :
  (i < j)%nat -> before (pos ++ i :: rel) (pos ++ j :: rel') = true.
Proof.
  intros Hlt. rewrite before_app. simpl.
  apply Nat.ltb_lt in Hlt. now rewrite Hlt.
Qed.

Lemma iter_forest_sorted tag0 pos cs :
  Forall (fun c => forall pos',
    StronglySorted in_document_order (iter_at tag0 pos' c)) cs ->
  forall i, StronglySorted in_document_order (iter_forest tag0 pos i cs).
Proof.
  induction 1 as [|c cs Hc _ IH]; intros i; simpl; [constructor|].
  apply StronglySorted_app_2; [|apply Hc|apply IH].
  intros [q1 x1] [q2 x2].
  rewrite elem_of_iter_at, elem_of_iter_forest_iff.
  intros (rel1 & -> & _) (k & c' & rel2 & _ & -> & _).
  unfold in_document_order. simpl. rewrite <- app_assoc. simpl.
  apply before_later_sibling. lia.
Qed.

(** [iter] yields the elements in document order. *)
Lemma iter_at_sorted tag0 e :
  forall pos, StronglySorted in_document_order (iter_at tag0 pos e).
Proof.
  induction e as [t tx cs IH] using Element_forall_ind. intros pos.
  rewrite iter_at_unfold. simpl children.
  apply StronglySorted_app_2.
  - intros [q1 x1] [q2 x2] Hhead.
    rewrite elem_of_iter_forest_iff. intros (k & c & rel & _ & -> & _).
    destruct (tag_matches _ _); [|inversion Hhead].
    apply list_elem_of_singleton in Hhead. inversion Hhead; subst.
    unfold in_document_order. simpl. now apply before_descendant.
  - destruct (tag_matches _ _); repeat constructor.
  - now apply iter_forest_sorted.
Qed.

Lemma findall_at_sorted t pos e :
  StronglySorted in_document_order (findall_at t pos e).
Proof.
  rewrite findall_at_forest. apply iter_forest_sorted, Forall_forall.
  intros c _ pos'. apply iter_at_sorted.
Qed.

(** ** The loops *)

Lemma fold_append_text ts acc :
  fold_left append_text ts acc = acc ++ flat_map fragment_of ts.
Proof.
  revert acc. induction ts as [|t ts IH]; intros acc; simpl.
  - now rewrite app_nil_r.
  - rewrite IH. unfold append_text, fragment_of.
    destruct (text t) as [[|c s]|]; simpl;
      now rewrite <- ?app_assoc.
Qed.

Lemma run_loop_spec acc r : run_loop acc r = acc ++ run_fragments r.
Proof. apply fold_append_text. Qed.

Lemma fold_run_loop rs acc :
  fold_left run_loop rs acc = acc ++ flat_map run_fragments rs.
Proof.
  revert acc. induction rs as [|r rs IH]; intros acc; simpl.
  - now rewrite app_nil_r.
  - now rewrite IH, run_loop_spec, <- app_assoc.
Qed.

Lemma paragraph_fragments_spec p :
  paragraph_fragments p = flat_map run_fragments (findall W_r p).
Proof. apply fold_run_loop. Qed.

Lemma fold_paragraph_loop ps acc :
  fold_left paragraph_loop ps acc = acc ++ (paragraph_text <$> ps).
Proof.
  revert acc. induction ps as [|p ps IH]; intros acc; simpl.
  - now rewrite app_nil_r.
  - rewrite IH. unfold paragraph_loop, paragraph_text.
    now rewrite <- app_assoc.
Qed.

Lemma extract_spec tree :
  extract tree = paragraph_text <$> findall W_p tree.
Proof. apply fold_paragraph_loop. Qed.

Lemma join_empty_sep items : join [] items = concat items.
Proof.
  induction items as [|x [|y items] IH]; simpl in *.
  - done.
  - now rewrite app_nil_r.
  - now rewrite IH.
Qed.

(** ** Scope of a paragraph's text *)

Example extract_nested_tree : extract nested_tree = [py "AB"; py "B"].
Proof. reflexivity. Qed.

(** C1, as stated, fails: in [nested_tree] the run of the inner paragraph
    is visited by the loop over the outer paragraph and contributes its
    text ["B"] to it, although its own paragraph is the inner one. *)
Lemma nested_run_leaks_into_outer_paragraph :
  ~ runs_scoped_to_paragraph nested_tree.
Proof.
  intros Hscoped.
  assert (Hp : ([0; 0]%nat, outer_paragraph) ∈ findall_at W_p [] nested_tree)
    by (apply (list_elem_of_lookup_2 _ 0%nat); reflexivity).
  assert (Hr : ([0; 0; 1; 0]%nat, inner_run)
               ∈ findall_at W_r [0; 0]%nat outer_paragraph)
    by (apply (list_elem_of_lookup_2 _ 1%nat); reflexivity).
  assert (Hf : run_fragments inner_run <> []) by (vm_compute; discriminate).
  specialize (Hscoped _ _ _ _ Hp Hr Hf).
  vm_compute in Hscoped. discriminate Hscoped.
Qed.

Lemma elem_of_findall t e x :
  x ∈ findall t e <->
  exists rel, rel <> [] /\ subtree e rel = Some x /\ tag x = t.
Proof.
  unfold findall. rewrite list_elem_of_fmap. split.
  - intros ([q x'] & -> & Hin). apply elem_of_findall_at in Hin
      as (rel & Hne & _ & Hsub & Htag). eauto.
  - intros (rel & Hne & Hsub & Htag). exists (rel, x). split; [done|].
    apply elem_of_findall_at. exists rel. done.
Qed.

Lemma elem_of_fragment_of s t : s ∈ fragment_of t -> text t = Some s.
Proof.
  unfold fragment_of. destruct (text t) as [[|c s']|]; try by inversion 1.
  intros Hin. apply list_elem_of_singleton in Hin. now subst.
Qed.

(** The walk of [enclosing_at] down to an element on the way. *)
Lemma enclosing_at_walk t e here a b last c :
  subtree e a = Some c ->
  exists last',
    enclosing_at t e here (a ++ b) last = enclosing_at t c (here ++ a) b last'.
Proof.
  revert e here last. induction a as [|i a IH]; intros e here last Hc; simpl.
  - inversion Hc; subst c. exists last. now rewrite app_nil_r.
  - simpl in Hc. destruct (children e !! i) as [c'|]; [|discriminate].
    destruct (IH c' (here ++ [i])
                (if bool_decide (tag e = t) then Some here else last) Hc)
      as [last' Hwalk].
    exists last'. rewrite Hwalk, <- app_assoc. reflexivity.
Qed.

(** The walk keeps [last] when no element on the way has tag [t]. *)
Lemma enclosing_at_keep t b :
  forall e here last x,
    subtree e b = Some x ->
    (forall rel1 rel2 y, b = rel1 ++ rel2 -> rel2 <> [] ->
                         subtree e rel1 = Some y -> tag y <> t) ->
    enclosing_at t e here b last = last.
Proof.
  induction b as [|i b IH]; intros e here last x Hx Hway; simpl; [done|].
  rewrite bool_decide_eq_false_2 by (apply (Hway [] (i :: b)); done).
  simpl in Hx. destruct (children e !! i) as [c|] eqn:Hc; [|discriminate].
  apply (IH c _ _ x Hx). intros rel1 rel2 y -> Hne Hy.
  apply (Hway (i :: rel1) rel2); [done | done |]. simpl. now rewrite Hc.
Qed.

(** A paragraph with no paragraph beneath it owns the runs found for it. *)
Lemma innermost_paragraph_scoped tree pp p rp r :
  (pp, p) ∈ findall_at W_p [] tree ->
  findall W_p p = [] ->
  (rp, r) ∈ findall_at W_r pp p ->
  paragraph_of tree rp = Some pp.
Proof.
  intros Hp Hbelow Hr.
  apply elem_of_findall_at in Hp as (prel & _ & -> & Hp & Hptag).
  apply elem_of_findall_at in Hr as (rrel & Hne & -> & Hr & _).
  unfold paragraph_of. simpl.
  destruct (enclosing_at_walk W_p tree [] prel rrel None p Hp)
    as [last' ->].
  destruct rrel as [|i rrel]; [done|]. simpl.
  rewrite bool_decide_eq_true_2 by done.
  simpl in Hr. destruct (children p !! i) as [c|] eqn:Hc; [|discriminate].
  apply (enclosing_at_keep _ _ _ _ _ r Hr).
  intros rel1 rel2 y -> _ Hy Htag.
  assert (Hin : y ∈ findall W_p p).
  { apply elem_of_findall. exists (i :: rel1).
    simpl. rewrite Hc. done. }
  rewrite Hbelow in Hin. inversion Hin.
Qed.

Lemma no_nested_paragraph_scoped tree :
  no_nested_paragraph tree -> runs_scoped_to_paragraph tree.
Proof.
  intros Hflat pp p rp r Hp Hr _.
  apply (innermost_paragraph_scoped tree pp p rp r Hp); [|exact Hr].
  apply (Hflat pp). unfold findall_at in Hp.
  now apply list_elem_of_filter in Hp as [_ Hp].
Qed.

(** A run beneath a paragraph beneath another paragraph is found for both,
    and what it contributes goes to both. *)
Lemma nested_run_collected_twice pp p qrel q rrel r :
  qrel <> [] -> subtree p qrel = Some q ->
  rrel <> [] -> subtree q rrel = Some r -> tag r = W_r ->
  (pp ++ qrel ++ rrel, r) ∈ findall_at W_r pp p /\
  (pp ++ qrel ++ rrel, r) ∈ findall_at W_r (pp ++ qrel) q /\
  (forall s, s ∈ run_fragments r ->
             s ∈ paragraph_fragments p /\ s ∈ paragraph_fragments q).
Proof.
  intros Hqne Hq Hrne Hr Htag.
  assert (Hpr : subtree p (qrel ++ rrel) = Some r)
    by now rewrite (subtree_app _ _ _ _ Hq).
  assert (Hne : qrel ++ rrel <> []) by (destruct qrel; done).
  split; [|split].
  - apply elem_of_findall_at. exists (qrel ++ rrel). done.
  - apply elem_of_findall_at. exists rrel. rewrite <- app_assoc. done.
  - intros s Hs. rewrite !paragraph_fragments_spec.
    split; apply list_elem_of_In, in_flat_map; exists r;
      (split; [|now apply list_elem_of_In]);
      apply list_elem_of_In, elem_of_findall; eauto.
Qed.

(** C1, amended: every fragment of a paragraph's text is the text of a
    [w:t] element strictly beneath a [w:r] element strictly beneath that
    paragraph's own element, so nothing outside the paragraph's subtree
    contributes to it. For a paragraph with no paragraph beneath it, every
    run found for it has it as its nearest enclosing paragraph (so in a
    document without nested paragraphs every run contributes to its own
    paragraph only). A run of a paragraph nested in another paragraph is
    found for the nested paragraph and for the enclosing one, and its
    text goes to both. *)
Theorem paragraph_text_from_own_subtree tree :
  (forall pp p s,
     subtree tree pp = Some p ->
     s ∈ paragraph_fragments p ->
     exists rrel trel r t,
       rrel <> [] /\ trel <> [] /\
       subtree tree (pp ++ rrel) = Some r /\ tag r = W_r /\
       subtree tree (pp ++ rrel ++ trel) = Some t /\ tag t = W_t /\
       text t = Some s) /\
  (forall pp p rp r,
     (pp, p) ∈ findall_at W_p [] tree ->
     findall W_p p = [] ->
     (rp, r) ∈ findall_at W_r pp p ->
     paragraph_of tree rp = Some pp) /\
  (no_nested_paragraph tree -> runs_scoped_to_paragraph tree) /\
  (forall pp p qrel q rrel r,
     (pp, p) ∈ findall_at W_p [] tree ->
     qrel <> [] -> subtree p qrel = Some q -> tag q = W_p ->
     rrel <> [] -> subtree q rrel = Some r -> tag r = W_r ->
     (pp ++ qrel, q) ∈ findall_at W_p [] tree /\
     (pp ++ qrel ++ rrel, r) ∈ findall_at W_r pp p /\
     (pp ++ qrel ++ rrel, r) ∈ findall_at W_r (pp ++ qrel) q /\
     (forall s, s ∈ run_fragments r ->
                s ∈ paragraph_fragments p /\ s ∈ paragraph_fragments q)).
Proof.
  split; [|split; [|split]].
  - intros pp p s Hp Hs. rewrite paragraph_fragments_spec in Hs.
    apply list_elem_of_In, in_flat_map in Hs as (r & Hr & Hs).
    apply in_flat_map in Hs as (t & Ht & Hs).
    apply list_elem_of_In, elem_of_findall in Hr
      as (rrel & Hrne & Hrsub & Hrtag).
    apply list_elem_of_In, elem_of_findall in Ht
      as (trel & Htne & Htsub & Httag).
    apply list_elem_of_In, elem_of_fragment_of in Hs.
    exists rrel, trel, r, t. repeat split; try done.
    + now rewrite (subtree_app _ _ _ _ Hp).
    + rewrite (subtree_app _ _ _ _ Hp).
      now rewrite (subtree_app _ _ _ _ Hrsub).
  - apply innermost_paragraph_scoped.
  - apply no_nested_paragraph_scoped.
  - intros pp p qrel q rrel r Hp Hqne Hq Hqtag Hrne Hr Hrtag.
    split; [|now apply nested_run_collected_twice].
    apply elem_of_findall_at in Hp as (prel & Hpne & -> & Hp & _).
    apply elem_of_findall_at. exists (prel ++ qrel).
    split; [destruct prel; done|]. split; [done|].
    split; [now rewrite (subtree_app _ _ _ _ Hp) | done].
Qed.

Lemma paragraph_text_from_own_subtree_witness :
  (exists rrel trel r t,
     rrel <> [] /\ trel <> [] /\
     subtree hello_tree ([0; 0]%nat ++ rrel) = Some r /\ tag r = W_r /\
     subtree hello_tree ([0; 0]%nat ++ rrel ++ trel) = Some t /\
     tag t = W_t /\ text t = Some (py "Hello")) /\
  runs_scoped_to_paragraph hello_tree /\
  (py "B" ∈ paragraph_fragments outer_paragraph /\
   py "B" ∈ paragraph_fragments inner_paragraph).
Proof.
  destruct (paragraph_text_from_own_subtree hello_tree)
    as (Hown & _ & Hscoped & _).
  destruct (paragraph_text_from_own_subtree nested_tree)
    as (_ & _ & _ & Hnested).
  split; [|split].
  - apply (Hown [0; 0]%nat (W "p" None [W "r" None [T "Hello"]])).
    + reflexivity.
    + apply (list_elem_of_lookup_2 _ 0%nat). reflexivity.
  - apply Hscoped. intros pos p Hp.
    remember (iter_at (Some W_p) [] hello_tree) as ps eqn:Hps.
    vm_compute in Hps. subst ps.
    repeat (apply elem_of_cons in Hp as [Hp|Hp];
            [injection Hp as -> ->; reflexivity|]).
    inversion Hp.
  - destruct (Hnested [0; 0]%nat outer_paragraph [1]%nat inner_paragraph
                [0]%nat inner_run) as (_ & _ & _ & Hboth);
      try reflexivity; try discriminate.
    + apply (list_elem_of_lookup_2 _ 0%nat). reflexivity.
    + apply Hboth. apply (list_elem_of_lookup_2 _ 0%nat). reflexivity.
Defined.

(** ** Lines of the output *)

Lemma count_char_app c s1 s2 :
  count_char c (s1 ++ s2) = (count_char c s1 + count_char c s2)%nat.
Proof. unfold count_char. now rewrite filter_app, length_app. Qed.

Lemma count_char_absent c s : c ∉ s -> count_char c s = 0%nat.
Proof.
  unfold count_char. induction s as [|x s IH]; intros Hc; [done|].
  apply not_elem_of_cons in Hc as [Hx Hs].
  rewrite filter_cons_False by congruence. now apply IH.
Qed.

Lemma count_char_join_LF items :
  Forall (fun s => LF ∉ s) items ->
  count_char LF (join [LF] items) = (length items - 1)%nat.
Proof.
  induction 1 as [|x items Hx Hitems IH]; [done|].
  destruct items as [|y items].
  - simpl. now apply count_char_absent.
  - change (join [LF] (x :: y :: items))
      with (x ++ [LF] ++ join [LF] (y :: items)).
    rewrite !count_char_app, IH, (count_char_absent _ _ Hx). simpl. lia.
Qed.

Lemma split_lines_no_LF s : LF ∉ s -> split_lines s = [s].
Proof.
  induction s as [|c s IH]; intros Hs; simpl; [done|].
  apply not_elem_of_cons in Hs as [Hc Hs].
  destruct (N.eqb_spec c LF) as [->|_]; [done|]. now rewrite IH.
Qed.

Lemma split_lines_app_LF s rest :
  LF ∉ s -> split_lines (s ++ [LF] ++ rest) = s :: split_lines rest.
Proof.
  induction s as [|c s IH]; intros Hs; simpl; [done|].
  apply not_elem_of_cons in Hs as [Hc Hs].
  destruct (N.eqb_spec c LF) as [->|_]; [done|].
  simpl in IH. now rewrite IH.
Qed.

Lemma split_lines_join items :
  items <> [] -> Forall (fun s => LF ∉ s) items ->
  split_lines (join [LF] items) = items.
Proof.
  intros Hne Hall. induction Hall as [|x items Hx Hitems IH]; [done|].
  destruct items as [|y items].
  - simpl. now apply split_lines_no_LF.
  - change (join [LF] (x :: y :: items))
      with (x ++ [LF] ++ join [LF] (y :: items)).
    rewrite split_lines_app_LF by done. f_equal. now apply IH.
Qed.

(** C2, as stated, fails: [multiline_tree] has one paragraph, whose text
    holds a line feed, so the text written has one line feed, not zero. *)
Lemma multiline_paragraph_adds_a_line :
  ~ one_line_per_paragraph multiline_tree.
Proof. intros [_ Hcount]. vm_compute in Hcount. discriminate Hcount. Qed.

(** C2, amended: [extract] returns one string per [w:p] element beneath
    the root, the i-th string being the text of the i-th such element in
    document order; when no paragraph text holds a line feed, the text
    written has one line feed less than there are paragraphs, and, if
    there is a paragraph at all, its lines are the paragraph strings. *)
Theorem one_string_per_paragraph_in_order tree :
  length (extract tree) = count_beneath W_p tree /\
  extract tree = paragraph_text <$> (findall_at W_p [] tree).*2 /\
  StronglySorted in_document_order (findall_at W_p [] tree) /\
  (forall pos p, (pos, p) ∈ findall_at W_p [] tree <->
                 pos <> [] /\ subtree tree pos = Some p /\ tag p = W_p) /\
  (Forall (fun s => LF ∉ s) (extract tree) ->
   count_char LF (full_text tree) = (count_beneath W_p tree - 1)%nat /\
   (extract tree <> [] -> split_lines (full_text tree) = extract tree)).
Proof.
  assert (Hlen : length (extract tree) = count_beneath W_p tree)
    by (rewrite extract_spec, length_fmap; apply length_findall).
  split; [exact Hlen|].
  split; [now rewrite extract_spec, findall_at_elements|].
  split; [apply findall_at_sorted|].
  split.
  - intros pos p. rewrite elem_of_findall_at. simpl. split.
    + intros (rel & Hne & -> & Hsub & Htag). done.
    + intros (Hne & Hsub & Htag). exists pos. done.
  - intros Hall. split.
    + unfold full_text. rewrite count_char_join_LF by done. now rewrite Hlen.
    + intros Hne. now apply split_lines_join.
Qed.

Lemma one_string_per_paragraph_in_order_witness :
  count_char LF (full_text hello_tree) = 2%nat /\
  split_lines (full_text hello_tree) = [py "Hello"; []; py "World"].
Proof.
  destruct (one_string_per_paragraph_in_order hello_tree)
    as (_ & _ & _ & _ & Hlines).
  destruct Hlines as [Hcount Hsplit].
  - vm_compute. repeat constructor; intros Hin;
      repeat (apply elem_of_cons in Hin as [Hin|Hin]; [discriminate Hin|]);
      inversion Hin.
  - split; [exact Hcount|]. apply Hsplit. discriminate.
Defined.

(** ** Empty paragraphs *)

Lemma flat_map_nil {A B} (f : A -> list B) l :
  (forall x, x ∈ l -> f x = []) -> flat_map f l = [].
Proof.
  induction l as [|x l IH]; intros Hf; simpl; [done|].
  rewrite (Hf x) by left. apply IH. intros y Hy. apply Hf. now right.
Qed.

(** C3: a paragraph with no run, or whose runs have no text element, or
    whose text elements have no (or empty) text, gets the empty string,
    and that string stands at the paragraph's place in the result. *)
Theorem empty_paragraph_gives_empty_line p :
  (forall r t, r ∈ findall W_r p -> t ∈ findall W_t r ->
               text t = None \/ text t = Some []) ->
  paragraph_text p = [] /\
  forall tree i, findall W_p tree !! i = Some p ->
                 extract tree !! i = Some [].
Proof.
  intros Hempty.
  assert (Htext : paragraph_text p = []).
  { unfold paragraph_text. rewrite paragraph_fragments_spec.
    rewrite flat_map_nil; [done|]. intros r Hr.
    apply flat_map_nil. intros t Ht. unfold fragment_of.
    destruct (Hempty r t Hr Ht) as [-> | ->]; done. }
  split; [exact Htext|]. intros tree i Hi.
  now rewrite extract_spec, list_lookup_fmap, Hi, <- Htext.
Qed.

Lemma empty_paragraph_gives_empty_line_witness :
  paragraph_text (W "p" None []) = [] /\
  extract hello_tree !! 1%nat = Some [].
Proof.
  destruct (empty_paragraph_gives_empty_line (W "p" None [])) as [Htext Hline].
  - intros r t Hr. inversion Hr.
  - split; [exact Htext|]. apply Hline. reflexivity.
Defined.

(** ** Concatenation *)

Lemma length_concat {A} (ls : list (list A)) :
  length (concat ls) = sum_list (length <$> ls).
Proof.
  induction ls as [|l ls IH]; simpl; [done|]. now rewrite length_app, IH.
Qed.

Lemma concat_flat_map {A B} (f : A -> list (list B)) l :
  concat (flat_map f l) = concat ((fun x => concat (f x)) <$> l).
Proof.
  induction l as [|x l IH]; simpl; [done|]. now rewrite concat_app, IH.
Qed.

(** C4: the text of a paragraph is its fragments put end to end, in the
    order the loops meet them (run by run, text element by text element),
    with nothing in between: its length is the sum of their lengths. That
    text is the string the paragraph gets in the result. *)
Theorem paragraph_text_is_concatenation p :
  paragraph_text p = concat (paragraph_fragments p) /\
  paragraph_fragments p =
    flat_map (fun r => flat_map fragment_of (findall W_t r)) (findall W_r p) /\
  paragraph_text p =
    concat ((fun r => concat (run_fragments r)) <$> findall W_r p) /\
  length (paragraph_text p) = sum_list (length <$> paragraph_fragments p) /\
  (forall tree i,
     findall W_p tree !! i = Some p ->
     extract tree !! i = Some (concat (paragraph_fragments p))).
Proof.
  assert (Hjoin : paragraph_text p = concat (paragraph_fragments p))
    by apply join_empty_sep.
  split; [exact Hjoin|].
  split; [apply paragraph_fragments_spec|].
  split; [now rewrite Hjoin, paragraph_fragments_spec, concat_flat_map|].
  split; [rewrite Hjoin; apply length_concat|].
  intros tree i Hi.
  now rewrite extract_spec, list_lookup_fmap, Hi, <- Hjoin.
Qed.

Lemma paragraph_text_is_concatenation_witness :
  extract hello_tree !! 2%nat = Some (py "Wor" ++ py "ld").
Proof.
  destruct (paragraph_text_is_concatenation
              (W "p" None [W "r" None [T "Wor"]; W "r" None [T "ld"]]))
    as (_ & _ & _ & _ & Hline).
  rewrite (Hline hello_tree 2%nat); reflexivity.
Defined.

(** ** Running the program *)

(** The exceptions of the program's own steps are instances of
    [Exception]. *)
Lemma own_exceptions_are_Exceptions path name s :
  isinstance (NoSuchFile path) Exception = true /\
  isinstance (NoSuchItem name) Exception = true /\
  isinstance (CannotOpen path) Exception = true /\
  isinstance (CannotEncode s) Exception = true /\
  isinstance (CannotWrite path) Exception = true.
Proof. repeat split. Qed.

(** Either the package loads or extraction fails. *)
Lemma loads_or_fails `{Platform} w file_path :
  (exists tree, loads w file_path tree) \/
  (exists e, extraction_fails w file_path e).
Proof.
  destruct (files w !! node_of file_path) as [data|] eqn:Hfile;
    [|right; eexists; apply fails_no_file; exact Hfile].
  destruct (zip_members data) as [e|z] eqn:Hzip;
    [right; eexists; exact (fails_not_a_zip _ _ _ _ Hfile Hzip)|].
  destruct (z !! document_xml) as [xml_content|] eqn:Hdoc;
    [|right; eexists; exact (fails_no_document _ _ _ _ Hfile Hzip Hdoc)].
  destruct (fromstring xml_content) as [e|tree] eqn:Htree;
    [right; eexists;
      exact (fails_not_well_formed _ _ _ _ _ _ Hfile Hzip Hdoc Htree)|].
  left. exists tree. exact (loads_intro _ _ _ _ _ _ Hfile Hzip Hdoc Htree).
Qed.

Lemma loads_not_fails `{Platform} w file_path tree e :
  loads w file_path tree -> extraction_fails w file_path e -> False.
Proof.
  intros [data z xml_content Hfile Hzip Hdoc Htree] Hfails.
  destruct Hfails; congruence.
Qed.

Lemma loads_unique `{Platform} w file_path tree tree' :
  loads w file_path tree -> loads w file_path tree' -> tree = tree'.
Proof. intros [] []. congruence. Qed.

(** The handler returns [False] after printing the error line, unless
    [print] raises: then that exception leaves the handler. *)
Lemma read_docx_except_spec `{Platform} e w :
  read_docx_except e w =
  match print_error (error_line e) with
  | Some e' => (Raise e', w)
  | None => (Return false, add_line (error_line e) w)
  end.
Proof.
  unfold read_docx_except, bind, print, ret, error_line.
  destruct (print_error _); reflexivity.
Qed.

Ltac run_body :=
  unfold read_docx, try_except, read_docx_try, bind,
    ZipFile, ZipFile_read, ET_fromstring, f_write, open_w, write_bytes,
    print, ret, raise.

(** A failed extraction: the handler runs on the untouched world if the
    exception is an instance of [Exception]; otherwise it propagates. *)
Lemma read_docx_fails `{Platform} w file_path output_path e :
  extraction_fails w file_path e ->
  read_docx file_path output_path w =
  if isinstance e Exception then read_docx_except e w else (Raise e, w).
Proof.
  destruct 1 as [Hfile | data e Hfile Hzip | data z Hfile Hzip Hdoc
                 | data z xml_content e Hfile Hzip Hdoc Htree];
    run_body; fold document_xml; rewrite Hfile; try rewrite Hzip;
    try rewrite Hdoc; try (unfold ret, raise; rewrite Htree);
    try reflexivity; destruct (isinstance e Exception); reflexivity.
Qed.

(** A package that loads: the ways the writing and the report can go. *)
Lemma read_docx_loads `{Platform} w file_path output_path tree :
  loads w file_path tree ->
  read_docx file_path output_path w =
  if bool_decide (output_path ∈ unwritable w) then
    read_docx_except (CannotOpen output_path) w
  else
    match encode_utf8 (translate_newlines linesep (full_text tree)) with
    | None =>
        read_docx_except (CannotEncode (full_text tree))
          (written w output_path [])
    | Some data =>
        if fits w output_path data then
          match print_error (success_line output_path) with
          | None =>
              (Return true,
               add_line (success_line output_path)
                 (written w output_path data))
          | Some e =>
              if isinstance e Exception
              then read_docx_except e (written w output_path data)
              else (Raise e, written w output_path data)
          end
        else
          read_docx_except (CannotWrite output_path)
            (written w output_path (kept w output_path data))
    end.
Proof.
  intros [data z xml_content Hfile Hzip Hdoc Htree].
  run_body. fold document_xml. rewrite Hfile, Hzip, Hdoc.
  unfold ret. rewrite Htree. unfold full_text, fits, kept, written.
  destruct (bool_decide _); [reflexivity|].
  destruct (encode_utf8 _) as [bs|]; simpl; [|reflexivity].
  unfold success_line, set_files. simpl.
  destruct (capacity w !! node_of output_path) as [limit|]; simpl;
    [destruct (limit <? length bs)%nat; simpl|];
    rewrite alter_insert_eq; simpl; try reflexivity;
    (destruct (print_error _) as [e|]; [|reflexivity]);
    destruct (isinstance e Exception); reflexivity.
Qed.

(** What the handler leaves alone. *)
Lemma read_docx_except_frame `{Platform} e w :
  files (read_docx_except e w).2 = files w /\
  unwritable (read_docx_except e w).2 = unwritable w /\
  capacity (read_docx_except e w).2 = capacity w /\
  (read_docx_except e w).1 <> Return true.
Proof.
  rewrite read_docx_except_spec. destruct (print_error _); done.
Qed.

Lemma sample_loads_hello :
  loads (H := sample_posix) sample_world (py "hello.docx") hello_tree.
Proof.
  apply (loads_intro (H := sample_posix) _ _ _ (ascii_bytes "PKhello")
           {[ document_xml := ascii_bytes "hello" ]} (ascii_bytes "hello"));
    reflexivity.
Qed.

Lemma sample_loads_blank :
  loads (H := sample_posix) sample_world (py "blank.docx") blank_tree.
Proof.
  apply (loads_intro (H := sample_posix) _ _ _ (ascii_bytes "PKblank")
           {[ document_xml := ascii_bytes "blank" ]} (ascii_bytes "blank"));
    reflexivity.
Qed.

(** When [read_docx] returns [True]: the package loaded, the destination
    opened, the text was encoded, all its bytes were taken and the
    success line was printed. *)
Lemma read_docx_true_iff `{Platform} w file_path output_path w' :
  read_docx file_path output_path w = (Return true, w') <->
  exists tree data,
    loads w file_path tree /\
    (output_path ∉ unwritable w) /\
    encode_utf8 (translate_newlines linesep (full_text tree)) = Some data /\
    fits w output_path data = true /\
    print_error (success_line output_path) = None /\
    w' = add_line (success_line output_path) (written w output_path data).
Proof.
  assert (Hno : forall e v, read_docx_except e v <> (Return true, w')).
  { intros e v Heq. destruct (read_docx_except_frame e v) as (_ & _ & _ & Hne).
    apply Hne. now rewrite Heq. }
  split.
  - destruct (loads_or_fails w file_path) as [[tree Hloads] | [e Hfails]].
    + rewrite (read_docx_loads _ _ _ _ Hloads).
      destruct (bool_decide_reflect (output_path ∈ unwritable w));
        [intros Heq; destruct (Hno _ _ Heq)|].
      destruct (encode_utf8 _) as [data|] eqn:Hdata;
        [|intros Heq; destruct (Hno _ _ Heq)].
      destruct (fits w output_path data) eqn:Hfits;
        [|intros Heq; destruct (Hno _ _ Heq)].
      destruct (print_error _) as [e|] eqn:Hprint.
      * destruct (isinstance e Exception);
          [intros Heq; destruct (Hno _ _ Heq) | discriminate].
      * intros [= <-]. exists tree, data. done.
    + rewrite (read_docx_fails _ _ _ _ Hfails).
      destruct (isinstance e Exception);
        [intros Heq; destruct (Hno _ _ Heq) | discriminate].
  - intros (tree & data & Hloads & Hout & Hdata & Hfits & Hprint & ->).
    rewrite (read_docx_loads _ _ _ _ Hloads).
    rewrite bool_decide_eq_false_2 by done.
    now rewrite Hdata, Hfits, Hprint.
Qed.

(** ** Writing *)

Lemma translate_newlines_LF s : translate_newlines [LF] s = s.
Proof.
  induction s as [|c s IH]; simpl; [done|].
  destruct (N.eqb_spec c LF) as [->|_]; simpl; now rewrite IH.
Qed.

Lemma join_cons sep x rest :
  join sep (x :: rest) = x ++ flat_map (fun y => sep ++ y) rest.
Proof.
  revert x. induction rest as [|y rest IH]; intros x; simpl.
  - now rewrite app_nil_r.
  - rewrite <- app_assoc. f_equal. f_equal. apply IH.
Qed.

(** Where the line separator is carriage return and line feed, every line
    feed of the text is written as that pair. *)
Example windows_line_endings :
  read_docx (H := sample_windows) (py "hello.docx") (py "out.txt")
    sample_world
  = (Return true,
     add_line (success_line (py "out.txt"))
       (written (H := sample_windows) sample_world (py "out.txt")
          (ascii_bytes "Hello" ++ [x0d; x0a; x0d; x0a]
           ++ ascii_bytes "World"))).
Proof. vm_compute. reflexivity. Qed.

(** C5, as stated, fails: where the line separator of the platform is
    carriage return and line feed, the destination does not hold the
    paragraph strings joined by single line feeds. *)
Lemma line_feeds_are_translated :
  ~ output_joined_by_LF (H := sample_windows).
Proof.
  intros Hclaim.
  assert (Hloads : loads (H := sample_windows) sample_world
                     (py "hello.docx") hello_tree).
  { apply (loads_intro (H := sample_windows) _ _ _ (ascii_bytes "PKhello")
             {[ document_xml := ascii_bytes "hello" ]} (ascii_bytes "hello"));
      reflexivity. }
  specialize (Hclaim _ _ _ _ _ Hloads windows_line_endings).
  vm_compute in Hclaim. discriminate Hclaim.
Qed.

(** C5, amended: the paragraph strings are joined with one line feed
    before every entry but the first and nothing after the last; every
    line feed of that text is replaced by the line separator of the
    platform and the UTF-8 encoding of the result is what the destination
    holds when the call returns [True]. Where the line separator is the
    line feed, that is the encoding of the joined text itself: for
    [Hello], the empty string and [World], the bytes of [Hello], two line
    feeds and the bytes of [World]. The encoding is UTF-8: one to four
    bytes at the boundaries of the four ranges, none for a surrogate or
    beyond U+10FFFF. *)
Theorem write_joins_with_newlines `{Platform}
    w file_path output_path tree w' :
  loads w file_path tree ->
  read_docx file_path output_path w = (Return true, w') ->
  (exists data,
     encode_utf8 (translate_newlines linesep (join [LF] (extract tree)))
       = Some data /\
     files w' !! node_of output_path = Some data) /\
  join [LF] [] = [] /\
  (forall x rest,
     join [LF] (x :: rest) = x ++ flat_map (fun y => LF :: y) rest) /\
  (linesep = [LF] ->
   files w' !! node_of output_path
     = encode_utf8 (join [LF] (extract tree))) /\
  (linesep = [LF] ->
   extract tree = [py "Hello"; []; py "World"] ->
   files w' !! node_of output_path
     = Some (ascii_bytes "Hello" ++ [x0a; x0a] ++ ascii_bytes "World")) /\
  (encode_utf8 [0x7F; 0x80; 0x7FF; 0x800; 0xD7FF; 0xE000; 0xFFFF;
                0x10000; 0x10FFFF]
     = Some [x7f; xc2; x80; xdf; xbf; xe0; xa0; x80; xed; x9f; xbf;
             xee; x80; x80; xef; xbf; xbf; xf0; x90; x80; x80;
             xf4; x8f; xbf; xbf] /\
   encode_utf8 [0xD800] = None /\ encode_utf8 [0xDFFF] = None /\
   encode_utf8 [0x110000] = None).
Proof.
  intros Hloads Hrun.
  apply read_docx_true_iff in Hrun
    as (tree' & data & Hloads' & _ & Hdata & _ & _ & ->).
  rewrite (loads_unique _ _ _ _ Hloads' Hloads) in Hdata.
  unfold full_text in Hdata.
  assert (Hfile : files (add_line (success_line output_path)
                           (written w output_path data))
                    !! node_of output_path = Some data)
    by apply lookup_insert_eq.
  split; [exists data; done|].
  split; [reflexivity|].
  split; [intros x rest; apply (join_cons [LF])|].
  split; [|split; [|repeat split]].
  - intros Hsep. rewrite Hsep, translate_newlines_LF in Hdata. congruence.
  - intros Hsep Hps. rewrite Hsep, translate_newlines_LF, Hps in Hdata.
    rewrite Hfile, <- Hdata. reflexivity.
Qed.

Lemma write_joins_with_newlines_witness :
  exists w',
    read_docx (H := sample_posix) (py "hello.docx") (py "out.txt") sample_world
      = (Return true, w') /\
    files w' !! 5
      = Some (ascii_bytes "Hello" ++ [x0a; x0a] ++ ascii_bytes "World").
Proof.
  eexists. split; [vm_compute; reflexivity|].
  refine (proj1 (proj2 (proj2 (proj2 (proj2
    (write_joins_with_newlines (H := sample_posix) sample_world
       (py "hello.docx") (py "out.txt") hello_tree _
       sample_loads_hello _))))) eq_refl eq_refl).
  vm_compute. reflexivity.
Defined.

(** ** Failures *)



(** C7, as stated, fails: with a standard output that takes ASCII only
    and an input path that names no file and holds a character outside
    ASCII, the handler's own [print] raises, and that exception leaves
    [read_docx]. *)
Lemma handler_print_may_raise :
  ~ always_returns_a_boolean (H := sample_ascii_stdout).
Proof.
  intros Hclaim.
  destruct (Hclaim sample_world accented_path (py "out.txt"))
    as (b & w' & Hrun).
  vm_compute in Hrun. discriminate Hrun.
Qed.

(** An exception that is no instance of [Exception] is not caught: it
    leaves [read_docx], and nothing is printed or written. *)
Example interrupt_is_not_caught :
  read_docx (H := sample_interrupted) (py "hello.docx") (py "out.txt")
    sample_world
  = (Raise (Raised KeyboardInterrupt []), sample_world).
Proof. vm_compute. reflexivity. Qed.

(** What leaves the body of the [try] when it raises. *)
Lemma body_raises `{Platform} w file_path output_path e w0 :
  read_docx_try file_path output_path w = (Raise e, w0) ->
  (exists path name s,
     e = NoSuchFile path \/ e = NoSuchItem name \/ e = CannotOpen path \/
     e = CannotEncode s \/ e = CannotWrite path) \/
  (exists data, zip_members data = inl e) \/
  (exists data, fromstring data = inl e) \/
  (exists line, print_error line = Some e).
Proof.
  unfold read_docx_try, bind, ZipFile, ZipFile_read, ET_fromstring,
    f_write, open_w, write_bytes, print, ret, raise.
  destruct (files w !! node_of file_path) as [data|];
    [|intros [= <- _]; left; exists file_path, [], []; auto].
  destruct (zip_members data) as [e1|z] eqn:Hzip;
    [intros [= <- _]; right; left; eauto|].
  destruct (z !! _) as [xml_content|];
    [|intros [= <- _]; left; eexists [], _, []; auto].
  destruct (fromstring xml_content) as [e1|tree] eqn:Htree;
    [intros [= <- _]; right; right; left; eauto|].
  destruct (bool_decide _);
    [intros [= <- _]; left; exists output_path, [], []; auto|].
  destruct (encode_utf8 _) as [bs|];
    [|intros [= <- _]; left; eexists [], [], _; auto 6].
  simpl.
  assert (Hprint : forall v,
    match print_error (py "Successfully wrote content to " ++ output_path)
    with
    | Some e1 => (Raise e1, v)
    | None => (Return true, add_line
                 (py "Successfully wrote content to " ++ output_path) v)
    end = (Raise e, w0) ->
    exists line, print_error line = Some e).
  { intros v. destruct (print_error _) as [e1|] eqn:Hp; [|discriminate].
    intros [= <- _]. eauto. }
  destruct (capacity w !! node_of output_path) as [limit|]; simpl.
  - destruct (limit <? length bs)%nat; simpl.
    + intros [= <- _]. left. exists output_path, [], []. auto 6.
    + intros Hp. right. right. right. eapply Hprint.
      destruct (print_error _); exact Hp.
  - intros Hp. right. right. right. eapply Hprint.
    destruct (print_error _); exact Hp.
Qed.

(** C7, amended: an exception raised in the body of the [try] that is an
    instance of [Exception] is caught, and so is every exception of the
    program's own steps; the call then returns [False] after printing the
    error line with [str(e)], provided [print] can print that line. An
    archive without the document member is such a case, with a
    [KeyError]. An exception that is no instance of [Exception], and the
    one the handler's own [print] raises, leave the call. Where the
    library raises instances of [Exception] only and standard output takes
    every line, the call always returns a boolean. *)
Theorem every_failure_is_reported `{Platform} w file_path output_path :
  match read_docx_try file_path output_path w with
  | (Return b0, w0) =>
      b0 = true /\ read_docx file_path output_path w = (Return true, w0)
  | (Raise e, w0) =>
      if isinstance e Exception then
        match print_error (error_line e) with
        | None =>
            read_docx file_path output_path w
              = (Return false, add_line (error_line e) w0)
        | Some e' => read_docx file_path output_path w = (Raise e', w0)
        end
      else read_docx file_path output_path w = (Raise e, w0)
  end /\
  (forall path name s,
     isinstance (NoSuchFile path) Exception = true /\
     isinstance (NoSuchItem name) Exception = true /\
     isinstance (CannotOpen path) Exception = true /\
     isinstance (CannotEncode s) Exception = true /\
     isinstance (CannotWrite path) Exception = true) /\
  (forall data z,
     files w !! node_of file_path = Some data ->
     zip_members data = inr z ->
     z !! document_xml = None ->
     read_docx_try file_path output_path w
       = (Raise (NoSuchItem document_xml), w) /\
     class_of (NoSuchItem document_xml) = KeyError /\
     (print_error (error_line (NoSuchItem document_xml)) = None ->
      read_docx file_path output_path w
        = (Return false, add_line (error_line (NoSuchItem document_xml)) w))) /\
  ((forall data e, zip_members data = inl e ->
                   isinstance e Exception = true) ->
   (forall data e, fromstring data = inl e ->
                   isinstance e Exception = true) ->
   (forall line, print_error line = None) ->
   exists b w', read_docx file_path output_path w = (Return b, w')).
Proof.
  split; [|split; [|split]].
  - unfold read_docx, try_except.
    destruct (read_docx_try file_path output_path w) as [[b0|e] w0] eqn:Htry.
    + assert (Hb0 : b0 = true); [|now subst b0].
      revert Htry. unfold read_docx_try, bind, ZipFile, ZipFile_read,
        ET_fromstring, f_write, open_w, write_bytes, print, ret, raise.
      repeat (match goal with
              | |- context [match ?x with _ => _ end] => destruct x
              end; simpl; try discriminate).
      all: now intros [= <- _].
    + destruct (isinstance e Exception); [|reflexivity].
      rewrite read_docx_except_spec. destruct (print_error _); reflexivity.
  - intros path name s. apply own_exceptions_are_Exceptions.
  - intros data z Hfile Hzip Hdoc.
    assert (Hfails : extraction_fails w file_path (NoSuchItem document_xml))
      by exact (fails_no_document _ _ _ _ Hfile Hzip Hdoc).
    split; [|split; [reflexivity|]].
    + unfold read_docx_try, bind, ZipFile, ZipFile_read, ret, raise.
      fold document_xml. now rewrite Hfile, Hzip, Hdoc.
    + intros Hprint. rewrite (read_docx_fails _ _ _ _ Hfails). simpl.
      now rewrite read_docx_except_spec, Hprint.
  - intros Hzip Htree Hprint. unfold read_docx, try_except.
    destruct (read_docx_try file_path output_path w) as [[b0|e] w0] eqn:Htry;
      [eauto|].
    assert (He : isinstance e Exception = true).
    { apply body_raises in Htry
        as [(path & name & s & [->|[->|[->|[->| ->]]]])
           | [[data Hd] | [[data Hd] | [line Hl]]]]; try reflexivity.
      - exact (Hzip _ _ Hd).
      - exact (Htree _ _ Hd).
      - rewrite Hprint in Hl. discriminate. }
    rewrite He, read_docx_except_spec, Hprint. eauto.
Qed.

Lemma every_failure_is_reported_witness :
  read_docx (H := sample_posix) (py "empty.zip") (py "out.txt") sample_world
  = (Return false,
     add_line (error_line (H := sample_posix) (NoSuchItem document_xml))
       sample_world).
Proof.
  refine (proj2 (proj2 (proj1 (proj2 (proj2
    (every_failure_is_reported (H := sample_posix) sample_world
       (py "empty.zip") (py "out.txt")))) (ascii_bytes "PK") ∅
       eq_refl eq_refl eq_refl)) eq_refl).
Defined.

(** ** Running twice *)




(** A call changes no file other than the one the destination leads to,
    nor what can be opened, nor what the files take. *)
Lemma read_docx_frame `{Platform} w file_path output_path :
  (forall n, n <> node_of output_path ->
     files (read_docx file_path output_path w).2 !! n = files w !! n) /\
  unwritable (read_docx file_path output_path w).2 = unwritable w /\
  capacity (read_docx file_path output_path w).2 = capacity w.
Proof.
  assert (Hexcept : forall e data,
    (forall n, n <> node_of output_path ->
       files (read_docx_except e (written w output_path data)).2 !! n
       = files w !! n) /\
    unwritable (read_docx_except e (written w output_path data)).2
      = unwritable w /\
    capacity (read_docx_except e (written w output_path data)).2
      = capacity w).
  { intros e data.
    destruct (read_docx_except_frame e (written w output_path data))
      as (-> & -> & -> & _).
    split; [|done]. intros n Hn. simpl. now rewrite lookup_insert_ne. }
  destruct (loads_or_fails w file_path) as [[tree Hloads] | [e Hfails]].
  - rewrite (read_docx_loads _ _ _ _ Hloads).
    destruct (bool_decide _).
    { now destruct (read_docx_except_frame (CannotOpen output_path) w)
        as (-> & -> & -> & _). }
    destruct (encode_utf8 _) as [data|]; [|apply Hexcept].
    destruct (fits w output_path data); [|apply Hexcept].
    destruct (print_error _) as [e|];
      [destruct (isinstance e Exception); [apply Hexcept|]|];
      (split; [|done]); intros n Hn; simpl; now rewrite lookup_insert_ne.
  - rewrite (read_docx_fails _ _ _ _ Hfails).
    destruct (isinstance e Exception); [|done].
    now destruct (read_docx_except_frame e w) as (-> & -> & -> & _).
Qed.

(** When the destination is the input path, the first run replaces the
    package by its text; the second run then reads another file, which
    is no package, fails and leaves the file as it is. *)
Example rerun_on_overwritten_input :
  let first :=
    read_docx (H := sample_posix) (py "hello.docx") (py "hello.docx")
      sample_world in
  let second :=
    read_docx (H := sample_posix) (py "hello.docx") (py "hello.docx")
      first.2 in
  first.1 = Return true /\ second.1 = Return false /\
  files second.2 = files first.2.
Proof. vm_compute. repeat split. Qed.




(** ** What the program touches *)

(** C9, as stated, fails: when the destination is the input path itself,
    a successful run replaces the content of the input file. *)
Lemma destination_may_be_the_input :
  ~ only_destination_modified (H := sample_posix).
Proof.
  intros Hclaim.
  destruct (Hclaim sample_world (py "hello.docx") (py "hello.docx"))
    as [Hinput _].
  vm_compute in Hinput. discriminate Hinput.
Qed.

(** The same happens through another name of the input file. *)
Example destination_may_alias_the_input :
  files (read_docx (H := sample_posix) (py "hello.docx")
           (py "./hello.docx") sample_world).2
    !! node_of (Platform := sample_posix) (py "hello.docx")
  = Some (ascii_bytes "Hello" ++ [x0a; x0a] ++ ascii_bytes "World").
Proof. vm_compute. reflexivity. Qed.

(** C9, amended: a run changes no file other than the one the destination
    path leads to, so the input file keeps its content whenever the input
    path and the destination path do not lead to the same file; what can
    be opened and what the files take is left as it was. *)
Theorem only_destination_is_written `{Platform} w file_path output_path :
  (forall n, n <> node_of output_path ->
     files (read_docx file_path output_path w).2 !! n = files w !! n) /\
  (node_of file_path <> node_of output_path ->
   files (read_docx file_path output_path w).2 !! node_of file_path
     = files w !! node_of file_path) /\
  unwritable (read_docx file_path output_path w).2 = unwritable w /\
  capacity (read_docx file_path output_path w).2 = capacity w.
Proof.
  destruct (read_docx_frame w file_path output_path)
    as (Hframe & Hopen & Hcap).
  repeat split; auto.
Qed.

Lemma only_destination_is_written_witness :
  files (read_docx (H := sample_posix) (py "hello.docx") (py "out.txt")
           sample_world).2 !! 1
  = Some (ascii_bytes "PKhello").
Proof.
  destruct (only_destination_is_written (H := sample_posix) sample_world
              (py "hello.docx") (py "out.txt")) as (_ & Hinput & _).
  change 1 with (node_of (Platform := sample_posix) (py "hello.docx")).
  rewrite Hinput; [reflexivity | discriminate].
Defined.

(** ** A document without paragraphs *)

(** C10, as stated, fails: with a destination that cannot be opened for
    writing, the call returns [False] and writes nothing. *)
Lemma blank_document_needs_a_destination :
  ~ blank_document_succeeds (H := sample_posix).
Proof.
  intros Hclaim.
  destruct (Hclaim sample_world (py "blank.docx") (py "/proc/version")
              blank_tree sample_loads_blank eq_refl) as (w' & Hrun & _).
  vm_compute in Hrun. discriminate Hrun.
Qed.

(** A destination whose name standard output cannot print: the empty
    file is written, and the call returns [False]. *)
Example blank_document_unprintable_destination :
  exists w',
    read_docx (H := sample_ascii_stdout) (py "blank.docx") accented_path
      sample_world = (Return false, w') /\
    files w' !! node_of (Platform := sample_ascii_stdout) accented_path
      = Some [].
Proof. eexists. split; vm_compute; reflexivity. Qed.

(** C10, amended: for a package whose document has no paragraph element
    beneath its root and a destination that can be opened for writing,
    the file the destination leads to becomes an empty file, whatever it
    takes; the call returns [True] when [print] can print the success
    line, and does not return [True] otherwise. *)
Theorem no_paragraph_gives_empty_file `{Platform}
    w file_path output_path tree :
  loads w file_path tree ->
  count_beneath W_p tree = 0%nat ->
  output_path ∉ unwritable w ->
  files (read_docx file_path output_path w).2
    = <[node_of output_path := []]> (files w) /\
  files (read_docx file_path output_path w).2 !! node_of output_path
    = Some [] /\
  (print_error (success_line output_path) = None ->
   read_docx file_path output_path w
     = (Return true,
        add_line (success_line output_path) (written w output_path []))) /\
  (print_error (success_line output_path) <> None ->
   (read_docx file_path output_path w).1 <> Return true).
Proof.
  intros Hloads Hcount Hout.
  assert (Hnil : extract tree = []).
  { apply length_zero_iff_nil.
    now rewrite extract_spec, length_fmap, length_findall. }
  rewrite (read_docx_loads _ _ _ _ Hloads).
  rewrite bool_decide_eq_false_2 by done.
  unfold full_text. rewrite Hnil. simpl.
  assert (Hfits : fits w output_path [] = true).
  { unfold fits. destruct (capacity w !! _) as [limit|]; [|done].
    now destruct limit. }
  rewrite Hfits.
  destruct (print_error (success_line output_path)) as [e|].
  - destruct (isinstance e Exception).
    + destruct (read_docx_except_frame e (written w output_path []))
        as (-> & _ & _ & Hne).
      simpl. rewrite lookup_insert_eq. done.
    + simpl. rewrite lookup_insert_eq. done.
  - simpl. rewrite lookup_insert_eq. done.
Qed.

Lemma no_paragraph_gives_empty_file_witness :
  read_docx (H := sample_posix) (py "blank.docx") (py "/dev/full")
    sample_world
  = (Return true,
     add_line (success_line (py "/dev/full"))
       (written (H := sample_posix) sample_world (py "/dev/full") [])).
Proof.
  refine (proj1 (proj2 (proj2
    (no_paragraph_gives_empty_file (H := sample_posix) sample_world
       (py "blank.docx") (py "/dev/full") blank_tree sample_loads_blank
       eq_refl _))) eq_refl).
  vm_compute. intros Hin. discriminate Hin.
Defined.

(** * Further properties of the traversal *)

Lemma elem_of_fragment_of_iff s t :
  s ∈ fragment_of t <-> text t = Some s /\ s <> [].
Proof.
  unfold fragment_of. destruct (text t) as [[|c s']|].
  - split; [inversion 1 | intros [[= <-] Hne]; done].
  - rewrite list_elem_of_singleton. split.
    + intros ->. done.
    + intros [[= <-] _]. done.
  - split; [inversion 1 | intros [[=] _]].
Qed.

(** X1: a string is among the fragments of a paragraph exactly when it is
    the non-empty text of a [w:t] element beneath, at any depth, a [w:r]
    element beneath, at any depth, the paragraph: no such text is missed,
    and the text of no other element is taken. *)
Theorem fragment_collected_iff p s :
  s ∈ paragraph_fragments p <->
  exists rrel trel r t,
    rrel <> [] /\ trel <> [] /\
    subtree p rrel = Some r /\ tag r = W_r /\
    subtree r trel = Some t /\ tag t = W_t /\
    text t = Some s /\ s <> [].
Proof.
  rewrite paragraph_fragments_spec, list_elem_of_In, in_flat_map. split.
  - intros (r & Hr & Hs). apply in_flat_map in Hs as (t & Ht & Hs).
    apply list_elem_of_In, elem_of_findall in Hr as (rrel & ? & ? & ?).
    apply list_elem_of_In, elem_of_findall in Ht as (trel & ? & ? & ?).
    apply list_elem_of_In, elem_of_fragment_of_iff in Hs as [? ?].
    exists rrel, trel, r, t. done.
  - intros (rrel & trel & r & t & Hrne & Htne & Hr & Hrtag & Ht & Httag
            & Hs & Hne).
    exists r. split.
    + apply list_elem_of_In, elem_of_findall. eauto.
    + apply in_flat_map. exists t. split.
      * apply list_elem_of_In, elem_of_findall. eauto.
      * apply list_elem_of_In, elem_of_fragment_of_iff. done.
Qed.

Lemma fragment_collected_iff_witness :
  py "here" ∈ paragraph_fragments link_paragraph.
Proof.
  apply (fragment_collected_iff link_paragraph (py "here")).
  exists [1; 0]%nat, [1]%nat, (W "r" None [W "rPr" None []; T "here"]),
    (T "here").
  repeat split; discriminate.
Defined.

(** ** The lines of a document, child by child *)

Lemma iter_unfold tag0 e :
  iter tag0 e =
  (if tag_matches tag0 e then [e] else []) ++
  flat_map (iter tag0) (children e).
Proof.
  unfold iter at 1. rewrite iter_at_unfold, fmap_app, iter_forest_elements.
  destruct (tag_matches _ _); done.
Qed.

(** X2: the strings of a document are those of its children, child after
    child; a child contributes its own text first if it is a paragraph,
    then the strings of what lies beneath it. The tag and the text of the
    root play no part. *)
Theorem extract_child_by_child t x :
  extract (mkElement t x []) = [] /\
  (forall c,
     extract (mkElement t x [c]) =
     (if bool_decide (tag c = W_p) then [paragraph_text c] else []) ++
     extract c) /\
  (forall cs1 cs2,
     extract (mkElement t x (cs1 ++ cs2)) =
     extract (mkElement t x cs1) ++ extract (mkElement t x cs2)).
Proof.
  split; [now rewrite extract_spec, findall_children|]. split.
  - intros c. rewrite !extract_spec, !findall_children. simpl.
    rewrite app_nil_r, iter_unfold, fmap_app, <- findall_children.
    simpl. destruct (bool_decide _); done.
  - intros cs1 cs2. rewrite !extract_spec, !findall_children. simpl.
    now rewrite flat_map_app, fmap_app.
Qed.

(** ** How often a text element is collected *)

Lemma before_irrefl p : before p p = false.
Proof.
  induction p as [|i p IH]; simpl; [done|].
  now rewrite Nat.ltb_irrefl, Nat.eqb_refl.
Qed.

Lemma is_above_spec a b :
  is_above a b = true <-> exists rel, rel <> [] /\ b = a ++ rel.
Proof.
  revert b. induction a as [|i a IH]; intros [|j b]; simpl.
  - split; [discriminate | intros ([|k rel] & Hne & Heq); done].
  - split; [exists (j :: b); done | done].
  - split; [discriminate | intros (rel & _ & [=])].
  - rewrite andb_true_iff, Nat.eqb_eq, IH. split.
    + intros [-> (rel & Hne & ->)]. exists rel. done.
    + intros (rel & Hne & [= -> ->]). eauto.
Qed.

(** A list in document order holds a position at most once. *)
Lemma sorted_position_once (l : list (position * Element)) tp :
  StronglySorted in_document_order l ->
  (length (filter (fun x => x.1 = tp) l) <= 1)%nat.
Proof.
  induction 1 as [|x l Hl IH Hx]; simpl; [lia|].
  rewrite filter_cons. destruct (decide (x.1 = tp)) as [Heq|_]; [|exact IH].
  assert (Hnone : filter (fun y : position * Element => y.1 = tp) l = []).
  { destruct (filter _ l) as [|y l'] eqn:Hf; [done|].
    assert (Hy : y ∈ filter (fun y : position * Element => y.1 = tp) l)
      by (rewrite Hf; left).
    apply list_elem_of_filter in Hy as [Hytp Hy].
    rewrite Forall_forall in Hx. specialize (Hx y Hy).
    unfold in_document_order in Hx.
    rewrite Heq, Hytp, before_irrefl in Hx. discriminate. }
  rewrite Hnone. simpl. lia.
Qed.

Lemma count_flat_map {A B} (P : B -> Prop) `{forall y, Decision (P y)}
    (Q : A -> Prop) `{forall x, Decision (Q x)} (f : A -> list B) l :
  (forall x, x ∈ l ->
     length (filter P (f x)) = if decide (Q x) then 1%nat else 0%nat) ->
  length (filter P (flat_map f l)) = length (filter Q l).
Proof.
  induction l as [|x l IH]; intros Hf; simpl; [done|].
  rewrite filter_app, length_app, (Hf x) by left.
  rewrite filter_cons, IH by (intros y Hy; apply Hf; now right).
  destruct (decide (Q x)); done.
Qed.

(** The visits of one run to the text element at [tp]. *)
Lemma visits_of_run p rp r tp t :
  subtree p rp = Some r ->
  subtree p tp = Some t -> tag t = W_t ->
  length (filter (fun x => x.1 = tp) (findall_at W_t rp r))
  = if decide (is_above rp tp = true) then 1%nat else 0%nat.
Proof.
  intros Hr Ht Htag.
  pose proof (sorted_position_once _ tp (findall_at_sorted W_t rp r)) as Hle.
  destruct (decide _) as [Habove|Hnot].
  - apply is_above_spec in Habove as (rel & Hne & ->).
    assert (Hin : (rp ++ rel, t)
                  ∈ filter (fun x : position * Element => x.1 = rp ++ rel)
                      (findall_at W_t rp r)).
    { apply list_elem_of_filter. split; [done|].
      apply elem_of_findall_at. exists rel. repeat split; try done.
      now rewrite <- (subtree_app _ _ _ _ Hr). }
    destruct (filter _ _) as [|y l']; [inversion Hin|]. simpl in *. lia.
  - destruct (filter _ _) as [|y l'] eqn:Hf; [done|]. exfalso.
    assert (Hy : y ∈ filter (fun x : position * Element => x.1 = tp)
                       (findall_at W_t rp r)) by (rewrite Hf; left).
    apply list_elem_of_filter in Hy as [Hytp Hy]. destruct y as [q y].
    apply elem_of_findall_at in Hy as (rel & Hne & -> & _).
    apply Hnot, is_above_spec. simpl in Hytp. eauto.
Qed.

Lemma flat_map_fmap {A B C} (f : B -> list C) (g : A -> B) l :
  flat_map f (g <$> l) = flat_map (fun x => f (g x)) l.
Proof.
  induction l as [|x l IH]; [done|]. rewrite fmap_cons. simpl. now rewrite IH.
Qed.

Lemma flat_map_flat_map {A B C} (f : B -> list C) (g : A -> list B) l :
  flat_map f (flat_map g l) = flat_map (fun x => flat_map f (g x)) l.
Proof.
  induction l as [|x l IH]; simpl; [done|]. now rewrite flat_map_app, IH.
Qed.

(** The fragments of a paragraph are those of the visited text elements. *)
Lemma fragments_of_visits pos p :
  paragraph_fragments p
  = flat_map (fun x => fragment_of x.2) (paragraph_texts_at pos p).
Proof.
  rewrite paragraph_fragments_spec. unfold paragraph_texts_at, run_fragments.
  rewrite <- (findall_at_elements W_r pos p).
  rewrite flat_map_fmap, flat_map_flat_map.
  apply flat_map_ext. intros [rp r]. simpl.
  rewrite <- (findall_at_elements W_t rp r). apply flat_map_fmap.
Qed.

(** X3: a [w:t] element of a paragraph is visited once for every [w:r]
    element above it in the paragraph, and each visit adds its text once
    more: a text element under a run inside a run is taken twice, one
    under no run at all is not taken. *)
Theorem text_visited_once_per_run p tp t :
  subtree p tp = Some t ->
  tag t = W_t ->
  paragraph_fragments p
    = flat_map (fun x => fragment_of x.2) (paragraph_texts_at [] p) /\
  (forall x, x ∈ paragraph_texts_at [] p -> x.1 = tp -> x.2 = t) /\
  length (filter (fun x => x.1 = tp) (paragraph_texts_at [] p))
    = length (filter (fun x => is_above x.1 tp = true)
                (findall_at W_r [] p)).
Proof.
  intros Ht Htag. split; [apply fragments_of_visits|]. split.
  - intros [q y] Hin Hq. simpl in *. subst q.
    unfold paragraph_texts_at in Hin.
    apply list_elem_of_In, in_flat_map in Hin as ([rp r] & Hr & Hy).
    apply list_elem_of_In, elem_of_findall_at in Hr
      as (rrel & _ & -> & Hr & _).
    apply list_elem_of_In, elem_of_findall_at in Hy
      as (trel & _ & Htp & Hy & _).
    simpl in *. subst tp.
    rewrite (subtree_app _ _ _ _ Hr), Hy in Ht. now inversion Ht.
  - unfold paragraph_texts_at.
    apply (count_flat_map (fun x : position * Element => x.1 = tp)
             (fun x : position * Element => is_above x.1 tp = true)).
    intros [rp r] Hr.
    apply elem_of_findall_at in Hr as (rrel & _ & -> & Hr & _).
    simpl. now apply (visits_of_run p _ r tp t).
Qed.

Lemma text_visited_once_per_run_witness :
  length (filter (fun x => x.1 = [0; 0; 0]%nat)
            (paragraph_texts_at [] doubled_paragraph)) = 2%nat /\
  paragraph_fragments doubled_paragraph = [py "X"; py "X"].
Proof.
  destruct (text_visited_once_per_run doubled_paragraph [0; 0; 0]%nat
              (T "X") eq_refl eq_refl) as (Hfrag & _ & Hcount).
  split.
  - rewrite Hcount. reflexivity.
  - rewrite Hfrag. reflexivity.
Defined.

(** ** Reading order *)

Lemma before_below a b x y :
  before a b = true -> is_above a b = false ->
  before (a ++ x) (b ++ y) = true.
Proof.
  revert b. induction a as [|i a IH]; intros [|j b]; simpl; try done.
  intros Hbefore Habove.
  apply orb_true_iff in Hbefore as [Hlt | Heq]; [now rewrite Hlt|].
  apply andb_true_iff in Heq as [Hij Hbefore].
  rewrite Hij in *. simpl in Habove.
  rewrite (IH b Hbefore Habove). apply orb_true_r.
Qed.

(** X10: in a paragraph where no run lies beneath another run, the two
    inner loops visit the text elements in document order, each at most
    once: the fragments come in reading order. *)
Theorem texts_in_reading_order p :
  (forall x y, x ∈ findall_at W_r [] p -> y ∈ findall_at W_r [] p ->
               is_above x.1 y.1 = false) ->
  StronglySorted in_document_order (paragraph_texts_at [] p) /\
  paragraph_fragments p
    = flat_map (fun x => fragment_of x.2) (paragraph_texts_at [] p).
Proof.
  intros Hflat. split; [|apply fragments_of_visits].
  unfold paragraph_texts_at.
  pose proof (findall_at_sorted W_r [] p) as Hsorted.
  induction Hsorted as [|[rp r] l Hl IH Hrest]; simpl; [constructor|].
  apply StronglySorted_app_2.
  - intros [q1 t1] [q2 t2] Hin1 Hin2.
    apply elem_of_findall_at in Hin1 as (rel1 & _ & -> & _).
    apply list_elem_of_In, in_flat_map in Hin2 as ([rp2 r2] & Hr2 & Hin2).
    apply list_elem_of_In in Hr2, Hin2.
    apply elem_of_findall_at in Hin2 as (rel2 & _ & -> & _).
    unfold in_document_order. simpl. apply before_below.
    + rewrite Forall_forall in Hrest. apply (Hrest _ Hr2).
    + apply (Hflat (rp, r) (rp2, r2)); [left | now right].
  - apply findall_at_sorted.
  - apply IH. intros x y Hx Hy. apply Hflat; now right.
Qed.

Lemma texts_in_reading_order_witness :
  StronglySorted in_document_order (paragraph_texts_at [] link_paragraph) /\
  paragraph_fragments link_paragraph = [py "see "; py "here"].
Proof.
  destruct (texts_in_reading_order link_paragraph) as [Hsorted Hfrag].
  - intros x y Hx Hy.
    remember (findall_at W_r [] link_paragraph) as rs eqn:Hrs.
    vm_compute in Hrs. subst rs.
    repeat (apply elem_of_cons in Hx as [->|Hx]);
      try (inversion Hx);
      repeat (apply elem_of_cons in Hy as [->|Hy]);
      try (inversion Hy); reflexivity.
  - split; [exact Hsorted|]. rewrite Hfrag. reflexivity.
Defined.

(** * Further properties of a run *)

Lemma encode_char_is_Some c : is_Some (encode_char c) <-> scalar_value c.
Proof.
  unfold encode_char, scalar_value.
  destruct (c <? 0x80) eqn:H1.
  { apply N.ltb_lt in H1. split; [intros _; split; lia | eauto]. }
  apply N.ltb_ge in H1.
  destruct (c <? 0x800) eqn:H2.
  { apply N.ltb_lt in H2. split; [intros _; split; lia | eauto]. }
  apply N.ltb_ge in H2.
  destruct (0xD800 <=? c) eqn:H3, (c <=? 0xDFFF) eqn:H4; simpl;
    try apply N.leb_le in H3; try apply N.leb_gt in H3;
    try apply N.leb_le in H4; try apply N.leb_gt in H4.
  { split; [intros [? [=]] | intros [_ Hno]; destruct Hno; split; lia]. }
  all: destruct (c <? 0x10000) eqn:H5;
    [apply N.ltb_lt in H5; split; [intros _; split; lia | eauto]|];
    apply N.ltb_ge in H5;
    destruct (c <? 0x110000) eqn:H6;
    [apply N.ltb_lt in H6; split; [intros _; split; lia | eauto]|];
    apply N.ltb_ge in H6; split; [intros [? [=]] | intros [Hlt _]; lia].
Qed.

(** The codec accepts a string exactly when it is made of scalar values. *)
Lemma encode_utf8_is_Some s :
  is_Some (encode_utf8 s) <-> Forall scalar_value s.
Proof.
  induction s as [|c s IH]; simpl.
  - split; [constructor | eauto].
  - rewrite Forall_cons, <- IH, <- encode_char_is_Some.
    destruct (encode_char c) as [b|], (encode_utf8 s) as [bs|]; split.
    + eauto.
    + eauto.
    + intros [? [=]].
    + intros [_ [? [=]]].
    + intros [? [=]].
    + intros [[? [=]] _].
    + intros [? [=]].
    + intros [[? [=]] _].
Qed.

(** What the handler prints. *)
Lemma read_docx_except_stdout `{Platform} e v :
  match (read_docx_except e v).1 with
  | Return true => False
  | Return false =>
      stdout (read_docx_except e v).2 = stdout v ++ [error_line e]
  | Raise _ => stdout (read_docx_except e v).2 = stdout v
  end.
Proof. rewrite read_docx_except_spec. destruct (print_error _); done. Qed.

(** X4: [read_docx] returns [True] exactly when the input is a package
    whose document parses, the destination can be opened for writing, the
    text to write (after newline translation) is made of Unicode scalar
    values, the file takes all the encoded bytes, and [print] can print
    the success line. A call that returns [True] has printed the success
    line and nothing else, one that returns [False] has printed the error
    line of one exception and nothing else, and one that an exception
    leaves has printed nothing. *)
Theorem read_docx_reports_truthfully `{Platform} w file_path output_path :
  (((read_docx file_path output_path w).1 = Return true) <->
   (exists tree,
      loads w file_path tree /\
      (output_path ∉ unwritable w) /\
      Forall scalar_value (translate_newlines linesep (full_text tree)) /\
      (forall data,
         encode_utf8 (translate_newlines linesep (full_text tree))
           = Some data ->
         fits w output_path data = true) /\
      print_error (success_line output_path) = None)) /\
  match (read_docx file_path output_path w).1 with
  | Return true =>
      stdout (read_docx file_path output_path w).2
        = stdout w ++ [success_line output_path]
  | Return false =>
      exists e,
        stdout (read_docx file_path output_path w).2
          = stdout w ++ [error_line e]
  | Raise _ => stdout (read_docx file_path output_path w).2 = stdout w
  end.
Proof.
  split.
  - split.
    + intros Htrue.
      destruct (read_docx file_path output_path w) as [o w'] eqn:Hrun.
      simpl in Htrue. subst o.
      apply read_docx_true_iff in Hrun
        as (tree & data & Hloads & Hout & Hdata & Hfits & Hprint & _).
      exists tree. repeat split; try done.
      * apply encode_utf8_is_Some. eauto.
      * intros data' Hdata'. congruence.
    + intros (tree & Hloads & Hout & Hscalar & Hfits & Hprint).
      apply encode_utf8_is_Some in Hscalar as [data Hdata].
      assert (Hrun : read_docx file_path output_path w
                = (Return true, add_line (success_line output_path)
                                  (written w output_path data))).
      { apply read_docx_true_iff. exists tree, data.
        repeat split; auto. }
      now rewrite Hrun.
  - assert (Hexcept : forall e data,
      match (read_docx_except e (written w output_path data)).1 with
      | Return true =>
          stdout (read_docx_except e (written w output_path data)).2
            = stdout w ++ [success_line output_path]
      | Return false =>
          exists e0,
            stdout (read_docx_except e (written w output_path data)).2
              = stdout w ++ [error_line e0]
      | Raise _ =>
          stdout (read_docx_except e (written w output_path data)).2
            = stdout w
      end).
    { intros e data.
      pose proof (read_docx_except_stdout e (written w output_path data))
        as Hout.
      destruct (read_docx_except e _).1 as [[|]|]; [done|eauto|done]. }
    destruct (loads_or_fails w file_path) as [[tree Hloads] | [e Hfails]].
    + rewrite (read_docx_loads _ _ _ _ Hloads).
      destruct (bool_decide _).
      { pose proof (read_docx_except_stdout (CannotOpen output_path) w)
          as Hout.
        destruct (read_docx_except _ _).1 as [[|]|]; [done|eauto|done]. }
      destruct (encode_utf8 _) as [data|]; [|apply Hexcept].
      destruct (fits w output_path data); [|apply Hexcept].
      destruct (print_error _) as [e|]; [|reflexivity].
      destruct (isinstance e Exception); [apply Hexcept | reflexivity].
    + rewrite (read_docx_fails _ _ _ _ Hfails).
      destruct (isinstance e Exception); [|reflexivity].
      pose proof (read_docx_except_stdout e w) as Hout.
      destruct (read_docx_except _ _).1 as [[|]|]; [done|eauto|done].
Qed.

Lemma read_docx_reports_truthfully_witness :
  (read_docx (H := sample_posix) (py "hello.docx") (py "out.txt")
     sample_world).1 = Return true.
Proof.
  apply (read_docx_reports_truthfully (H := sample_posix)).
  exists hello_tree. split; [exact sample_loads_hello|]. split; [|split].
  - vm_compute. intros Hin. discriminate Hin.
  - apply encode_utf8_is_Some. vm_compute. eauto.
  - split; [|reflexivity]. intros data _. reflexivity.
Defined.

(** X5: when the destination cannot be opened for writing, a call
    changes no file and does not return [True], whatever the input; if
    the input is a package whose document parses, the handler runs on the
    [OSError] of [open], and the call returns [False] when [print] can
    print its error line. *)
Theorem unwritable_destination `{Platform} w file_path output_path :
  output_path ∈ unwritable w ->
  files (read_docx file_path output_path w).2 = files w /\
  (read_docx file_path output_path w).1 <> Return true /\
  (forall tree,
     loads w file_path tree ->
     read_docx file_path output_path w
       = read_docx_except (CannotOpen output_path) w /\
     class_of (CannotOpen output_path) = OSError /\
     (print_error (error_line (CannotOpen output_path)) = None ->
      read_docx file_path output_path w
        = (Return false,
           add_line (error_line (CannotOpen output_path)) w))).
Proof.
  intros Hout.
  destruct (loads_or_fails w file_path) as [[tree Hloads] | [e Hfails]].
  - rewrite (read_docx_loads _ _ _ _ Hloads).
    rewrite bool_decide_eq_true_2 by done.
    destruct (read_docx_except_frame (CannotOpen output_path) w)
      as (Hfiles & _ & _ & Hne).
    split; [done|]. split; [done|]. intros tree' _.
    split; [done|]. split; [done|]. intros Hprint.
    now rewrite read_docx_except_spec, Hprint.
  - rewrite (read_docx_fails _ _ _ _ Hfails).
    assert (Hno : forall tree, loads w file_path tree -> False)
      by (intros tree Hloads; exact (loads_not_fails _ _ _ _ Hloads Hfails)).
    destruct (isinstance e Exception).
    + destruct (read_docx_except_frame e w) as (Hfiles & _ & _ & Hne).
      split; [done|]. split; [done|].
      intros tree Hloads. destruct (Hno tree Hloads).
    + split; [done|]. split; [done|].
      intros tree Hloads. destruct (Hno tree Hloads).
Qed.

Lemma unwritable_destination_witness :
  files (read_docx (H := sample_posix) (py "hello.docx")
           (py "/proc/version") sample_world).2 = files sample_world /\
  read_docx (H := sample_posix) (py "hello.docx") (py "/proc/version")
    sample_world
  = (Return false,
     add_line (error_line (H := sample_posix)
                 (CannotOpen (py "/proc/version"))) sample_world).
Proof.
  destruct (unwritable_destination (H := sample_posix) sample_world
              (py "hello.docx") (py "/proc/version")) as (Hfiles & _ & Hrun).
  - vm_compute. reflexivity.
  - split; [exact Hfiles|].
    destruct (Hrun hello_tree sample_loads_hello) as (_ & _ & Hfalse).
    apply Hfalse. reflexivity.
Defined.

(** X6: once the package has been read and the destination opened, what
    the file held before is gone: it holds nothing when the text cannot
    be encoded, and otherwise the encoded text, or, when the file does
    not take it all, the part of it that the file takes; in the first and
    the last case the call does not return [True]. *)
Theorem destination_is_replaced `{Platform} w file_path output_path tree :
  loads w file_path tree ->
  output_path ∉ unwritable w ->
  match encode_utf8 (translate_newlines linesep (full_text tree)) with
  | Some data =>
      files (read_docx file_path output_path w).2 !! node_of output_path
        = Some (kept w output_path data) /\
      kept w output_path data `prefix_of` data /\
      (fits w output_path data = true -> kept w output_path data = data) /\
      (fits w output_path data = false ->
       (read_docx file_path output_path w).1 <> Return true)
  | None =>
      files (read_docx file_path output_path w).2 !! node_of output_path
        = Some [] /\
      (read_docx file_path output_path w).1 <> Return true
  end.
Proof.
  intros Hloads Hout. rewrite (read_docx_loads _ _ _ _ Hloads).
  rewrite bool_decide_eq_false_2 by done.
  assert (Hexcept : forall e data,
    files (read_docx_except e (written w output_path data)).2
      !! node_of output_path = Some data /\
    (read_docx_except e (written w output_path data)).1 <> Return true).
  { intros e data.
    destruct (read_docx_except_frame e (written w output_path data))
      as (-> & _ & _ & Hne).
    split; [apply lookup_insert_eq | done]. }
  destruct (encode_utf8 _) as [data|]; [|apply Hexcept].
  assert (Hkept : fits w output_path data = true ->
                  kept w output_path data = data).
  { unfold fits, kept. destruct (capacity w !! _) as [limit|]; [|done].
    destruct (Nat.ltb_spec limit (length data)); [done|].
    intros _. apply take_ge. lia. }
  assert (Hprefix : kept w output_path data `prefix_of` data).
  { unfold kept. destruct (capacity w !! _) as [limit|]; [|done].
    apply prefix_take. }
  destruct (fits w output_path data) eqn:Hfits.
  - rewrite (Hkept eq_refl). split; [|done].
    destruct (print_error _) as [e|];
      [destruct (isinstance e Exception); [apply Hexcept|]|];
      apply lookup_insert_eq.
  - destruct (Hexcept (CannotWrite output_path) (kept w output_path data)).
    done.
Qed.

Lemma destination_is_replaced_witness :
  files (read_docx (H := sample_posix) (py "hello.docx") (py "/dev/full")
           sample_world).2 !! 7 = Some [] /\
  read_docx (H := sample_posix) (py "hello.docx") (py "/dev/full")
    sample_world
  = (Return false,
     add_line (error_line (H := sample_posix)
                 (CannotWrite (py "/dev/full"))) sample_world).
Proof.
  pose proof (destination_is_replaced (H := sample_posix) sample_world
                (py "hello.docx") (py "/dev/full") hello_tree
                sample_loads_hello) as Hreplaced.
  assert (Hencoded :
    encode_utf8 (translate_newlines (linesep (Platform := sample_posix))
                   (full_text hello_tree))
    = Some (ascii_bytes "Hello" ++ [x0a; x0a] ++ ascii_bytes "World"))
    by (vm_compute; reflexivity).
  rewrite Hencoded in Hreplaced. destruct Hreplaced as (Hfile & _).
  - vm_compute. intros Hin. discriminate Hin.
  - split; [exact Hfile | vm_compute; reflexivity].
Defined.

(** ** Files that exist *)

(** X8: a call deletes no file and creates none but the one the
    destination leads to: every file that existed still exists, and a
    file that exists afterwards existed before or is the one the
    destination path leads to. *)
Theorem no_file_is_deleted `{Platform} w file_path output_path :
  dom (files w) ⊆ dom (files (read_docx file_path output_path w).2) /\
  dom (files (read_docx file_path output_path w).2)
    ⊆ dom (files w) ∪ {[node_of output_path]}.
Proof.
  assert (Hsame : forall fs : gmap N (list byte),
            dom fs ⊆ dom fs /\ dom fs ⊆ dom fs ∪ {[node_of output_path]})
    by (intros fs; split; [done | apply union_subseteq_l]).
  assert (Hinsert : forall (fs : gmap N (list byte)) data,
            dom fs ⊆ dom (<[node_of output_path := data]> fs) /\
            dom (<[node_of output_path := data]> fs)
              ⊆ dom fs ∪ {[node_of output_path]}).
  { intros fs data. rewrite dom_insert_L. split.
    - apply union_subseteq_r.
    - now rewrite (comm_L (∪)). }
  assert (Hexcept : forall e data,
    dom (files w)
      ⊆ dom (files (read_docx_except e (written w output_path data)).2) /\
    dom (files (read_docx_except e (written w output_path data)).2)
      ⊆ dom (files w) ∪ {[node_of output_path]}).
  { intros e data.
    destruct (read_docx_except_frame e (written w output_path data))
      as (-> & _). apply Hinsert. }
  destruct (loads_or_fails w file_path) as [[tree Hloads] | [e Hfails]].
  - rewrite (read_docx_loads _ _ _ _ Hloads).
    destruct (bool_decide _).
    { destruct (read_docx_except_frame (CannotOpen output_path) w)
        as (-> & _). apply Hsame. }
    destruct (encode_utf8 _) as [data|]; [|apply Hexcept].
    destruct (fits w output_path data); [|apply Hexcept].
    destruct (print_error _) as [e|];
      [destruct (isinstance e Exception); [apply Hexcept|]|];
      apply Hinsert.
  - rewrite (read_docx_fails _ _ _ _ Hfails).
    destruct (isinstance e Exception); [|apply Hsame].
    destruct (read_docx_except_frame e w) as (-> & _). apply Hsame.
Qed.

(** * The script *)

(** X9: the script changes no file other than the one
    [docx_content.txt] leads to. Without a file argument it changes no
    file and, when [print] can print the usage line, prints it and ends
    normally. With a file argument it leaves the world as [read_docx] on
    that argument and [docx_content.txt] leaves it, further arguments
    being ignored; the boolean is dropped, so the script ends normally
    exactly when [read_docx] returns, and an exception that leaves
    [read_docx] leaves the script. *)
Theorem main_runs_read_docx `{Platform} argv w :
  (forall n, n <> node_of default_output ->
     files (main argv w).2 !! n = files w !! n) /\
  ((length argv <= 1)%nat ->
   files (main argv w).2 = files w /\
   (print_error usage_line = None ->
    main argv w = (Return tt, add_line usage_line w))) /\
  (forall script file_path others,
     argv = script :: file_path :: others ->
     (main argv w).2 = (read_docx file_path default_output w).2 /\
     (forall b, (read_docx file_path default_output w).1 = Return b ->
                (main argv w).1 = Return tt) /\
     (forall e, (read_docx file_path default_output w).1 = Raise e ->
                (main argv w).1 = Raise e)).
Proof.
  destruct argv as [|script [|file_path others]].
  - unfold main, print.
    destruct (print_error usage_line); repeat split; try done.
  - unfold main, print.
    destruct (print_error usage_line); repeat split; try done.
  - pose proof (read_docx_frame w file_path default_output) as [Hframe _].
    unfold main, bind, ret.
    destruct (read_docx file_path default_output w) as [[b|e] w'] eqn:Hrun;
      simpl in *.
    + split; [exact Hframe|]. split; [lia|].
      intros script' file_path' others' [= _ <- _]. rewrite Hrun. simpl.
      repeat split; try done.
    + split; [exact Hframe|]. split; [lia|].
      intros script' file_path' others' [= _ <- _]. rewrite Hrun. simpl.
      split; [done|]. split; [done|]. now intros e' [= ->].
Qed.

Lemma main_runs_read_docx_witness :
  main (H := sample_posix) [py "read_docx.py"] sample_world
  = (Return tt, add_line usage_line sample_world).
Proof.
  destruct (main_runs_read_docx (H := sample_posix)
              [py "read_docx.py"] sample_world) as (_ & Husage & _).
  destruct Husage as [_ Hrun]; [simpl; lia|].
  apply Hrun. reflexivity.
Defined.
